(** * module-best-practices: the document viewer command [bin/cmd.js]

    The repository's only executable unit is

    <<
      var fs = require('fs')
      var pager = require('default-pager')

      module.exports = fs.createReadStream(__dirname + '/../README.md')

      if (require.main === module)
          module.exports.pipe(pager())
    >>

    The file is embedded below as [cmd_js], a computation in a small state
    monad over a Node process.  The three collaborators it calls
    ([fs.createReadStream], [Readable.pipe] and [default-pager]) are not
    part of the repository; they are modelled by their documented
    contracts: file streams open asynchronously and read in chunks of at
    most [highWaterMark] bytes, a read of zero bytes is end-of-file, an
    ['error'] event without listener is an uncaught exception, reported
    on the error channel before the process dies, and the pager is the
    standard input of a spawned child that accepts what it is sent and
    shows it on the standard output it inherits from the command. *)

From Stdlib Require Import Strings.Byte Strings.Ascii.
From stdpp Require Import base gmap strings list.

Set Default Proof Using "Type".

(** ** Paths *)

Module Path.

(** A path is absolute when it starts with a slash. *)
Definition is_absolute (p : string) : bool :=
  match p with
  | String c _ => Ascii.eqb c "/"%char
  | EmptyString => false
  end.

(** [split_from cur p] cuts [p] at every slash; [cur] is the segment
    read so far. *)
Fixpoint split_from (cur p : string) : list string :=
  match p with
  | EmptyString => [cur]
  | String c p' =>
      if Ascii.eqb c "/"%char then cur :: split_from "" p'
      else split_from (cur +:+ String c "") p'
  end.

Definition split (p : string) : list string := split_from "" p.

(** One step of a lexical walk; [stack] holds the directory reached so
    far, innermost first. *)
Definition walk (stack : list string) (seg : string) : list string :=
  if String.eqb seg "" then stack
  else if String.eqb seg "." then stack
  else if String.eqb seg ".." then tail stack
  else seg :: stack.

Definition normalize (segs : list string) : list string :=
  rev (fold_left walk segs []).

Definition render (segs : list string) : string :=
  "/" +:+ String.concat "/" segs.

(** What the operating system does with the path argument of [open]:
    a relative path is taken from the working directory, an absolute one
    is not. The result is the canonical absolute path. *)
Definition resolve (cwd p : string) : string :=
  render (normalize (split (if is_absolute p then p else cwd +:+ "/" +:+ p))).

Fixpoint no_slash (s : string) : bool :=
  match s with
  | EmptyString => true
  | String c s' => negb (Ascii.eqb c "/"%char) && no_slash s'
  end.

(** The name of a file or directory: not empty, neither [.] nor [..],
    and free of slashes. *)
Definition is_name (s : string) : bool :=
  negb (String.eqb s "") && negb (String.eqb s ".")
  && negb (String.eqb s "..") && no_slash s.

End Path.

(** ** The filesystem collaborator *)

Record file := File { f_data : list byte; f_readable : bool }.

(** [ENOENT] is the spec's ResourceNotFound, [EACCES] its AccessDenied. *)
Inductive errno := ENOENT | EACCES.

Definition errno_name (e : errno) : string :=
  match e with
  | ENOENT => "ENOENT: no such file or directory"
  | EACCES => "EACCES: permission denied"
  end.

(** What the report of an uncaught exception owes to the build of Node
    that runs the program rather than to the error: the place in Node's
    own sources where the error is thrown, the frames through which the
    stream emitted it (the last one ends with an opening brace), and the
    line that names the release. *)
Record Runtime := {
  rt_throw_site : string;
  rt_emit_frames : list string;
  rt_version : string;
}.

(** The environment a process is started in. Nothing in it is ever
    written by the program. *)
Record Env := {
  e_fs : gmap string file;     (* files by canonical absolute path *)
  e_cwd : string;              (* working directory of the caller *)
  e_argv : list string;        (* command-line arguments *)
  e_main : string;             (* filename of [require.main] *)
  e_highWaterMark : positive;  (* bytes asked for per read *)
  e_runtime : Runtime;         (* the build of Node *)
}.

Definition fs_open (e : Env) (p : string) : errno + string :=
  let ino := Path.resolve (e_cwd e) p in
  match e_fs e !! ino with
  | None => inl ENOENT
  | Some f => if f_readable f then inr ino else inl EACCES
  end.

Definition fs_read (e : Env) (ino : string) : list byte :=
  match e_fs e !! ino with
  | Some f => f_data f
  | None => []
  end.

(** ** Streams *)

Inductive rstatus :=
| Opening                            (* open requested, not completed *)
| Opened (ino : string) (pos : nat)  (* descriptor held, at offset [pos] *)
| Ended                              (* 'end' emitted, descriptor closed *)
| Errored (e : errno).               (* 'error' emitted, destroyed *)

Record ReadStream := {
  rs_path : string;
  rs_status : rstatus;
  rs_dests : list nat;     (* writables it is piped into *)
  rs_onerror : bool;       (* has an 'error' listener *)
}.

(** What a writable is asked to do, in order: [write(chunk)], [end()]. *)
Inductive wevent := Data (chunk : list byte) | End.

Inductive wkind := PagerStdin | Sink.

Record Writable := { w_kind : wkind; w_log : list wevent }.

Definition wevent_bytes (ev : wevent) : list byte :=
  match ev with Data c => c | End => [] end.

(** All bytes a writable has been sent, in the order of arrival. *)
Definition w_bytes (w : Writable) : list byte :=
  concat (map wevent_bytes (w_log w)).

Definition is_pager (w : Writable) : bool :=
  match w_kind w with PagerStdin => true | Sink => false end.

(** ** The process *)

Record Process := {
  p_env : Env;
  p_streams : list ReadStream;       (* a stream handle is an index here *)
  p_writables : list Writable;       (* likewise for writables *)
  p_caught : list (nat * errno);     (* errors handed to listeners *)
  p_stdout : list byte;              (* written by the process itself *)
  p_stderr : list string;
  p_exit : option nat;               (* exit code once terminated *)
}.

Definition boot (e : Env) : Process :=
  {| p_env := e; p_streams := []; p_writables := []; p_caught := [];
     p_stdout := []; p_stderr := []; p_exit := None |}.

Definition with_streams (ss : list ReadStream) (p : Process) : Process :=
  {| p_env := p_env p; p_streams := ss; p_writables := p_writables p;
     p_caught := p_caught p; p_stdout := p_stdout p;
     p_stderr := p_stderr p; p_exit := p_exit p |}.

Definition with_writables (ws : list Writable) (p : Process) : Process :=
  {| p_env := p_env p; p_streams := p_streams p; p_writables := ws;
     p_caught := p_caught p; p_stdout := p_stdout p;
     p_stderr := p_stderr p; p_exit := p_exit p |}.

Definition with_env (e : Env) (p : Process) : Process :=
  {| p_env := e; p_streams := p_streams p; p_writables := p_writables p;
     p_caught := p_caught p; p_stdout := p_stdout p;
     p_stderr := p_stderr p; p_exit := p_exit p |}.

(** Synchronous JavaScript: a state monad over the process. *)
Definition Node (A : Type) : Type := Process -> A * Process.

Definition ret {A} (a : A) : Node A := fun p => (a, p).

Definition bind {A B} (c : Node A) (k : A -> Node B) : Node B :=
  fun p => let (a, p') := c p in k a p'.

Declare Scope node_scope.
Delimit Scope node_scope with node.
Notation "'var' x := c ; k" := (bind c (fun x => k))
  (at level 10, x name, c at level 100, k at level 200) : node_scope.
Notation "'do' c ; k" := (bind c (fun _ => k))
  (at level 10, c at level 100, k at level 200) : node_scope.

Definition exec {A} (c : Node A) (p : Process) : Process := snd (c p).

(** [fs.createReadStream(path)]: allocates the stream and requests the
    open; never throws. *)
Definition fs_createReadStream (path : string) : Node nat :=
  fun p =>
    (length (p_streams p),
     with_streams (p_streams p ++
       [{| rs_path := path; rs_status := Opening;
           rs_dests := []; rs_onerror := false |}]) p).

Definition new_writable (k : wkind) : Node nat :=
  fun p =>
    (length (p_writables p),
     with_writables (p_writables p ++ [{| w_kind := k; w_log := [] |}]) p).

(** [require('default-pager')()]: spawns the pager, returns its stdin. *)
Definition pager : Node nat := new_writable PagerStdin.

Definition add_dest (d : nat) (s : ReadStream) : ReadStream :=
  {| rs_path := rs_path s; rs_status := rs_status s;
     rs_dests := rs_dests s ++ [d]; rs_onerror := rs_onerror s |}.

(** [src.pipe(dest)]: returns [dest]. No 'error' listener is put on the
    source. *)
Definition pipe (src dest : nat) : Node nat :=
  fun p => (dest, with_streams (alter (add_dest dest) src (p_streams p)) p).

Definition listen_error (s : ReadStream) : ReadStream :=
  {| rs_path := rs_path s; rs_status := rs_status s;
     rs_dests := rs_dests s; rs_onerror := true |}.

(** [src.on('error', listener)] *)
Definition on_error (src : nat) : Node unit :=
  fun p => (tt, with_streams (alter listen_error src (p_streams p)) p).

(** ** bin/cmd.js *)

Record Module := { filename : string; __dirname : string }.

(** Modules are identified by their filename. *)
Definition is_entry_point (e : Env) (m : Module) : bool :=
  String.eqb (e_main e) (filename m).

(** [require.main === module] *)
Definition require_main_is (m : Module) : Node bool :=
  fun p => (is_entry_point (p_env p) m, p).

Definition document_path (m : Module) : string :=
  __dirname m +:+ "/../README.md".

(** The module body; the value returned is [module.exports]. *)
Definition cmd_js (m : Module) : Node nat :=
  (var exports := fs_createReadStream (__dirname m +:+ "/../README.md");
   var is_main := require_main_is m;
   do (if is_main : bool
       then (var dest := pager; pipe exports dest)
       else ret exports);
   ret exports)%node.

(** ** The event loop *)

(** A stream has work pending when its open is outstanding, when it holds
    a descriptor and has a destination to feed, or when it has ended and a
    destination piped since has not been told so. *)
Definition ready (s : ReadStream) : bool :=
  match rs_status s with
  | Opening => true
  | Opened _ _ | Ended =>
      match rs_dests s with [] => false | _ :: _ => true end
  | Errored _ => false
  end.

Fixpoint find_ready (ss : list ReadStream) : option nat :=
  match ss with
  | [] => None
  | s :: ss' => if ready s then Some 0 else S <$> find_ready ss'
  end.

Definition set_status (st : rstatus) (s : ReadStream) : ReadStream :=
  {| rs_path := rs_path s; rs_status := st;
     rs_dests := rs_dests s; rs_onerror := rs_onerror s |}.

(** After 'end' the source unpipes its destinations. *)
Definition ended (s : ReadStream) : ReadStream :=
  {| rs_path := rs_path s; rs_status := Ended;
     rs_dests := []; rs_onerror := rs_onerror s |}.

Definition log_append (evs : list wevent) (w : Writable) : Writable :=
  {| w_kind := w_kind w; w_log := w_log w ++ evs |}.

(** Hand one event to every destination of a pipe, in pipe order. *)
Definition write_all (ds : list nat) (ev : wevent) (ws : list Writable)
  : list Writable :=
  fold_left (fun ws d => alter (log_append [ev]) d ws) ds ws.

(** Exit code of a process killed by an uncaught exception. *)
Definition uncaught_exception_exit_code : nat := 1.

Definition diagnostic (e : errno) (path : string) : string :=
  "Error: " +:+ errno_name e +:+ ", open '" +:+ path +:+ "'".

Definition errno_code (e : errno) : string :=
  match e with ENOENT => "ENOENT" | EACCES => "EACCES" end.

Definition errno_number (e : errno) : string :=
  match e with ENOENT => "-2" | EACCES => "-13" end.

(** What Node prints on the error channel for an 'error' event nobody
    listens for: where it was thrown, the message, how the stream came to
    emit it, and the properties of the error. *)
Definition uncaught_report (rt : Runtime) (e : errno) (path : string)
  : list string :=
  [rt_throw_site rt;
   "      throw er; // Unhandled 'error' event";
   "      ^";
   "";
   diagnostic e path;
   "Emitted 'error' event on ReadStream instance at:"]
  ++ rt_emit_frames rt
  ++ ["  errno: " +:+ errno_number e +:+ ",";
      "  code: '" +:+ errno_code e +:+ "',";
      "  syscall: 'open',";
      "  path: '" +:+ path +:+ "'";
      "}";
      "";
      rt_version rt].

(** [stream.emit('error', e)]: handed to the listener when there is one;
    otherwise thrown, reported on the error channel, and the process
    dies. *)
Definition emit_error (h : nat) (s : ReadStream) (e : errno) (p : Process)
  : Process :=
  if rs_onerror s then
    {| p_env := p_env p; p_streams := p_streams p;
       p_writables := p_writables p; p_caught := p_caught p ++ [(h, e)];
       p_stdout := p_stdout p; p_stderr := p_stderr p; p_exit := p_exit p |}
  else
    {| p_env := p_env p; p_streams := p_streams p;
       p_writables := p_writables p; p_caught := p_caught p;
       p_stdout := p_stdout p;
       p_stderr :=
         p_stderr p ++ uncaught_report (e_runtime (p_env p)) e (rs_path s);
       p_exit := Some uncaught_exception_exit_code |}.

(** One completion handled for stream [h], currently [s]. *)
Definition step_stream (h : nat) (s : ReadStream) (p : Process) : Process :=
  match rs_status s with
  | Opening =>
      match fs_open (p_env p) (rs_path s) with
      | inl e =>
          emit_error h s e
            (with_streams (<[h := set_status (Errored e) s]> (p_streams p)) p)
      | inr ino =>
          with_streams (<[h := set_status (Opened ino 0) s]> (p_streams p)) p
      end
  | Opened ino pos =>
      let chunk :=
        take (Pos.to_nat (e_highWaterMark (p_env p)))
             (drop pos (fs_read (p_env p) ino)) in
      match chunk with
      | [] =>
          with_streams (<[h := ended s]> (p_streams p))
            (with_writables (write_all (rs_dests s) End (p_writables p)) p)
      | _ :: _ =>
          with_streams
            (<[h := set_status (Opened ino (pos + length chunk)) s]>
               (p_streams p))
            (with_writables
               (write_all (rs_dests s) (Data chunk) (p_writables p)) p)
      end
  | Ended =>
      with_streams (<[h := ended s]> (p_streams p))
        (with_writables (write_all (rs_dests s) End (p_writables p)) p)
  | Errored _ => p
  end.

Definition exit_with (code : nat) (p : Process) : Process :=
  {| p_env := p_env p; p_streams := p_streams p;
     p_writables := p_writables p; p_caught := p_caught p;
     p_stdout := p_stdout p; p_stderr := p_stderr p; p_exit := Some code |}.

(** One turn of the loop. A terminated process does nothing more; a
    process with nothing pending exits with code 0. *)
Definition tick (p : Process) : Process :=
  match p_exit p with
  | Some _ => p
  | None =>
      match find_ready (p_streams p) with
      | None => exit_with 0 p
      | Some h =>
          match p_streams p !! h with
          | Some s => step_stream h s p
          | None => exit_with 0 p
          end
      end
  end.

Fixpoint loop (fuel : nat) (p : Process) : Process :=
  match fuel with
  | 0 => p
  | S n => loop n (tick p)
  end.

(** Running a program: boot, run the synchronous script, then the loop. *)
Definition node {A} (e : Env) (script : Node A) (fuel : nat) : Process :=
  loop fuel (exec script (boot e)).

(** [node bin/cmd.js]: the module is the script. *)
Definition run_command (e : Env) (m : Module) (fuel : nat) : Process :=
  node e (cmd_js m) fuel.

(** ** Importers *)

(** What a program that requires the module may do with the handle. *)
Inductive action :=
| PipeToSink   (* pipe it into a writable of its own *)
| OnError.     (* listen for 'error' *)

Definition act (h : nat) (a : action) : Node unit :=
  match a with
  | PipeToSink => (var d := new_writable Sink; do pipe h d; ret tt)%node
  | OnError => on_error h
  end.

Fixpoint acts (h : nat) (l : list action) : Node unit :=
  match l with
  | [] => ret tt
  | a :: l' => (do act h a; acts h l')%node
  end.

(** [var doc = require('module-best-practices/bin/cmd.js'); ...] *)
Definition importer (m : Module) (l : list action) : Node nat :=
  (var h := cmd_js m; do acts h l; ret h)%node.

(** [node app.js], where [app.js] requires the module and does [l] with
    the handle. *)
Definition run_importer (e : Env) (m : Module) (l : list action)
    (fuel : nat) : Process :=
  node e (importer m l) fuel.

(** ** Sample installation *)

Definition cmd_module : Module :=
  {| filename := "/usr/lib/node_modules/module-best-practices/bin/cmd.js";
     __dirname := "/usr/lib/node_modules/module-best-practices/bin" |}.

Definition readme_head : list byte := String.list_byte_of_string "# module best practices".

Definition node20 : Runtime :=
  {| rt_throw_site := "node:events:497";
     rt_emit_frames :=
       ["    at emitErrorNT (node:internal/streams/destroy:169:8)";
        "    at emitErrorCloseNT (node:internal/streams/destroy:128:3)";
        "    at process.processTicksAndRejections (node:internal/process/task_queues:82:21) {"];
     rt_version := "Node.js v20.11.1" |}.

Definition installed (main : string) (hwm : positive) : Env :=
  {| e_fs := {[ "/usr/lib/node_modules/module-best-practices/README.md"
                := File readme_head true ]};
     e_cwd := "/home/user/project";
     e_argv := [];
     e_main := main;
     e_highWaterMark := hwm;
     e_runtime := node20 |}.

Definition broken (main : string) : Env :=
  {| e_fs := ∅;
     e_cwd := "/home/user/project";
     e_argv := [];
     e_main := main;
     e_highWaterMark := 65536;
     e_runtime := node20 |}.

(** The Document as the environment holds it: the file found at the path
    the module computes. *)
Definition document (e : Env) (m : Module) : option file :=
  e_fs e !! Path.resolve (e_cwd e) (document_path m).

(** ** Vocabulary of the statements *)

(** The stream [cmd.js] creates, before the loop has run. *)
Definition doc_stream (m : Module) (ds : list nat) : ReadStream :=
  {| rs_path := document_path m; rs_status := Opening;
     rs_dests := ds; rs_onerror := false |}.

(** The pager runs on the standard output of the command: what it has
    been sent is what it has shown there. *)
Definition displayed (p : Process) : list byte :=
  concat (map w_bytes (List.filter is_pager (p_writables p))).

(** The standard output of the command: what the process wrote there
    itself, and what its pagers showed. *)
Definition standard_output (p : Process) : list byte :=
  p_stdout p ++ displayed p.

(** What writable [d] has been sent so far. *)
Definition received (p : Process) (d : nat) : list byte :=
  match p_writables p !! d with
  | Some w => w_bytes w
  | None => []
  end.

Definition is_on_error (a : action) : bool :=
  match a with OnError => true | PipeToSink => false end.

Definition has_on_error (l : list action) : bool := existsb is_on_error l.

(** An invocation together with its consumer: the pager when the module
    is the entry point, a sink of the importer otherwise. *)
Definition obtain_and_consume (e : Env) (m : Module) : Node nat :=
  if is_entry_point e m then cmd_js m else importer m [PipeToSink].

(** Everything about a process but the environment it was started in. *)
Definition observable (p : Process) :=
  (p_streams p, p_writables p, p_caught p, p_stdout p, p_stderr p, p_exit p).

Definition env_agree (e e' : Env) (paths : list string) : Prop :=
  e_fs e' = e_fs e /\
  e_highWaterMark e' = e_highWaterMark e /\
  e_runtime e' = e_runtime e /\
  Forall (fun path => fs_open e' path = fs_open e path) paths.

Definition set_cwd (cwd : string) (e : Env) : Env :=
  {| e_fs := e_fs e; e_cwd := cwd; e_argv := e_argv e;
     e_main := e_main e; e_highWaterMark := e_highWaterMark e;
     e_runtime := e_runtime e |}.

Definition set_argv (argv : list string) (e : Env) : Env :=
  {| e_fs := e_fs e; e_cwd := e_cwd e; e_argv := argv;
     e_main := e_main e; e_highWaterMark := e_highWaterMark e;
     e_runtime := e_runtime e |}.

(** How many destinations an importer pipes the handle into. *)
Fixpoint n_pipes (l : list action) : nat :=
  match l with
  | [] => 0
  | PipeToSink :: l' => S (n_pipes l')
  | OnError :: l' => n_pipes l'
  end.

(** The writables of a script, in the order of their creation: the pager
    when the module is the entry point, then the importer's sinks. *)
Definition kinds_of (e : Env) (m : Module) (l : list action) : list wkind :=
  (if is_entry_point e m then [PagerStdin] else []) ++ repeat Sink (n_pipes l).

(** Writables of kinds [ks] that have all been sent the events [evs]. *)
Definition fed (ks : list wkind) (evs : list wevent) : list Writable :=
  map (fun k => {| w_kind := k; w_log := evs |}) ks.

(** A process with one stream and nothing caught or printed. *)
Definition piping_state (e : Env) (path : string) (oe : bool)
    (ks : list wkind) (st : rstatus) (ds : list nat) (evs : list wevent)
    (ex : option nat) : Process :=
  {| p_env := e;
     p_streams := [{| rs_path := path; rs_status := st;
                      rs_dests := ds; rs_onerror := oe |}];
     p_writables := fed ks evs;
     p_caught := []; p_stdout := []; p_stderr := []; p_exit := ex |}.

(** The states a process goes through while its one stream, over a file
    that opened as [ino], feeds writables of kinds [ks]: the written chunks
    [cs] are non-empty, no longer than the high-water mark, and make up
    the first [pos] bytes of the file. *)
Inductive piping (e : Env) (path : string) (oe : bool) (ino : string)
    (ks : list wkind) : Process -> Prop :=
| piping_opening :
    piping e path oe ino ks
      (piping_state e path oe ks Opening (seq 0 (length ks)) [] None)
| piping_open pos cs ex :
    concat cs = take pos (fs_read e ino) ->
    pos <= length (fs_read e ino) ->
    Forall (fun c => 0 < length c <= Pos.to_nat (e_highWaterMark e)) cs ->
    ex = None \/ (ks = [] /\ ex = Some 0) ->
    piping e path oe ino ks
      (piping_state e path oe ks (Opened ino pos) (seq 0 (length ks))
         (map Data cs) ex)
| piping_ended cs ex :
    concat cs = fs_read e ino ->
    Forall (fun c => 0 < length c <= Pos.to_nat (e_highWaterMark e)) cs ->
    ex = None \/ ex = Some 0 ->
    piping e path oe ino ks
      (piping_state e path oe ks Ended [] (map Data cs ++ [End]) ex).

(** A write of between one byte and the high-water mark, or the end
    signal. *)
Definition bounded_event (e : Env) (ev : wevent) : bool :=
  match ev with
  | Data c => (0 <? length c) && (length c <=? Pos.to_nat (e_highWaterMark e))
  | End => true
  end.

(** An installation whose Document exists and may not be read. *)
Definition locked (main : string) : Env :=
  {| e_fs := {[ "/usr/lib/node_modules/module-best-practices/README.md"
                := File readme_head false ]};
     e_cwd := "/home/user/project";
     e_argv := [];
     e_main := main;
     e_highWaterMark := 65536;
     e_runtime := node20 |}.

(** * Properties *)

(** ** The loop *)

Lemma tick_exited p c : p_exit p = Some c -> tick p = p.
Proof. intros H. unfold tick. now rewrite H. Qed.

Lemma loop_exited n p c : p_exit p = Some c -> loop n p = p.
Proof.
  induction n as [|n IH]; intros H; simpl; [reflexivity|].
  rewrite (tick_exited p c H). now apply IH.
Qed.

Lemma loop_add a b p : loop (a + b) p = loop b (loop a p).
Proof.
  revert p. induction a as [|a IH]; intros p; simpl; [reflexivity|apply IH].
Qed.

(** Once the process has terminated after [n] turns, more fuel changes
    nothing. *)
Lemma loop_settled n p q c fuel :
  loop n p = q -> p_exit q = Some c -> n <= fuel -> loop fuel p = q.
Proof.
  intros Hq Hc Hle.
  replace fuel with (n + (fuel - n)) by lia.
  rewrite loop_add, Hq. now apply (loop_exited _ _ c).
Qed.

Lemma find_ready_insert ss h s :
  find_ready ss = Some h -> ready s = true ->
  find_ready (<[h := s]> ss) = Some h.
Proof.
  revert h. induction ss as [|s0 ss IH]; intros h Hf Hr; simpl in *.
  - discriminate.
  - destruct (ready s0) eqn:E0.
    + injection Hf as <-. simpl. now rewrite Hr.
    + destruct (find_ready ss) as [h'|] eqn:Ef; simpl in Hf; [|discriminate].
      injection Hf as <-. simpl. rewrite E0.
      now rewrite (IH h' eq_refl Hr).
Qed.

Lemma alter_log_append d evs1 evs2 (ws : list Writable) :
  alter (log_append evs2) d (alter (log_append evs1) d ws)
  = alter (log_append (evs1 ++ evs2)) d ws.
Proof.
  rewrite list_alter_alter_eq. apply list_alter_ext; [|reflexivity].
  intros w _. unfold log_append, compose. simpl. now rewrite app_assoc.
Qed.

Lemma highWaterMark_pos e : 0 < Pos.to_nat (e_highWaterMark e).
Proof. apply Pos2Nat.is_pos. Qed.

Lemma take_pos_nil {A} n (l : list A) : 0 < n -> take n l = [] -> l = [].
Proof.
  intros Hn H. destruct n; [lia|]. destruct l; [reflexivity|discriminate].
Qed.

Lemma take_then_rest {A} n pos (l : list A) :
  take n (drop pos l) ++ drop (pos + length (take n (drop pos l))) l
  = drop pos l.
Proof.
  rewrite <- drop_drop. generalize (drop pos l) as x. intros x.
  destruct (le_lt_dec n (length x)) as [Hle|Hlt].
  - rewrite length_take_le by exact Hle. apply take_drop.
  - rewrite take_ge by lia. rewrite drop_all. apply app_nil_r.
Qed.

Section OnePipe.

Variables (e : Env) (ca : list (nat * errno)) (out : list byte)
          (err : list string).
Variables (h d : nat) (ino : string).

Local Abbreviation state ss ws :=
  {| p_env := e; p_streams := ss; p_writables := ws; p_caught := ca;
     p_stdout := out; p_stderr := err; p_exit := None |}.

(** One read on a flowing stream with a single destination. *)
Lemma tick_read ss ws s pos :
  find_ready ss = Some h -> ss !! h = Some s ->
  rs_status s = Opened ino pos -> rs_dests s = [d] ->
  tick (state ss ws) =
    (match take (Pos.to_nat (e_highWaterMark e)) (drop pos (fs_read e ino)) with
     | [] => state (<[h := ended s]> ss) (alter (log_append [End]) d ws)
     | c :: cs =>
         state (<[h := set_status (Opened ino (pos + length (c :: cs))) s]> ss)
               (alter (log_append [Data (c :: cs)]) d ws)
     end).
Proof.
  intros Hf Hs Hst Hd. unfold tick. simpl. rewrite Hf, Hs.
  unfold step_stream. rewrite Hst, Hd. simpl.
  destruct (take _ _); reflexivity.
Qed.

(** Reading to the end: the destination is sent chunks that concatenate
    to the rest of the file, then [End]; every chunk is non-empty and no
    longer than the high-water mark. *)
Lemma read_to_end k : forall ss ws s pos,
  length (fs_read e ino) - pos <= k ->
  find_ready ss = Some h -> ss !! h = Some s ->
  rs_status s = Opened ino pos -> rs_dests s = [d] ->
  exists n cs,
    n <= S k /\
    concat cs = drop pos (fs_read e ino) /\
    Forall (fun c => 0 < length c <= Pos.to_nat (e_highWaterMark e)) cs /\
    loop n (state ss ws) =
      state (<[h := ended s]> ss)
            (alter (log_append (map Data cs ++ [End])) d ws).
Proof.
  induction k as [|k IH]; intros ss ws s pos Hk Hf Hs Hst Hd.
  - exists 1, []. simpl. rewrite (tick_read ss ws s pos Hf Hs Hst Hd).
    rewrite drop_ge by lia. rewrite take_nil.
    repeat split; [lia|constructor].
  - pose proof (tick_read ss ws s pos Hf Hs Hst Hd) as Ht.
    destruct (take _ _) as [|c cs0] eqn:Etake.
    + exists 1, []. simpl. rewrite Ht.
      apply take_pos_nil in Etake; [|apply highWaterMark_pos].
      rewrite Etake. repeat split; [lia|constructor].
    + set (chunk := c :: cs0) in *.
      set (s' := set_status (Opened ino (pos + length chunk)) s) in *.
      assert (Hlen : 0 < length chunk <= Pos.to_nat (e_highWaterMark e)).
      { split; [simpl; lia|]. rewrite <- Etake. apply firstn_le_length. }
      assert (Hlen' : length chunk <= length (fs_read e ino) - pos).
      { rewrite <- Etake, length_take, length_drop. lia. }
      destruct (IH (<[h := s']> ss) (alter (log_append [Data chunk]) d ws)
                  s' (pos + length chunk)) as (n & cs & Hn & Hcat & Hall & Hrun).
      * lia.
      * apply find_ready_insert; [exact Hf|]. unfold ready. simpl.
        now rewrite Hd.
      * apply list_lookup_insert_eq. now apply lookup_lt_Some in Hs.
      * reflexivity.
      * exact Hd.
      * exists (S n), (chunk :: cs). repeat split.
        -- lia.
        -- change (concat (chunk :: cs)) with (chunk ++ concat cs).
           rewrite Hcat. subst chunk. rewrite <- Etake.
           apply take_then_rest.
        -- constructor; [exact Hlen | exact Hall].
        -- simpl. rewrite Ht, Hrun. f_equal.
           ++ now rewrite list_insert_insert_eq.
           ++ now rewrite alter_log_append.
Qed.

Lemma tick_open_ok ss ws s :
  find_ready ss = Some h -> ss !! h = Some s ->
  rs_status s = Opening -> fs_open e (rs_path s) = inr ino ->
  tick (state ss ws) = state (<[h := set_status (Opened ino 0) s]> ss) ws.
Proof.
  intros Hf Hs Hst Ho. unfold tick. simpl. rewrite Hf, Hs.
  unfold step_stream. rewrite Hst. cbn [p_env]. now rewrite Ho.
Qed.

Lemma tick_open_fail ss ws s er :
  find_ready ss = Some h -> ss !! h = Some s ->
  rs_status s = Opening -> fs_open e (rs_path s) = inl er ->
  tick (state ss ws) =
    emit_error h s er (state (<[h := set_status (Errored er) s]> ss) ws).
Proof.
  intros Hf Hs Hst Ho. unfold tick. simpl. rewrite Hf, Hs.
  unfold step_stream. rewrite Hst. cbn [p_env]. now rewrite Ho.
Qed.

(** From the open request to end-of-stream. *)
Lemma pipe_to_end ss ws s :
  find_ready ss = Some h -> ss !! h = Some s ->
  rs_status s = Opening -> rs_dests s = [d] ->
  fs_open e (rs_path s) = inr ino ->
  exists n cs,
    n <= length (fs_read e ino) + 2 /\
    concat cs = fs_read e ino /\
    Forall (fun c => 0 < length c <= Pos.to_nat (e_highWaterMark e)) cs /\
    loop n (state ss ws) =
      state (<[h := ended s]> ss)
            (alter (log_append (map Data cs ++ [End])) d ws).
Proof.
  intros Hf Hs Hst Hd Ho.
  set (s' := set_status (Opened ino 0) s).
  destruct (read_to_end (length (fs_read e ino)) (<[h := s']> ss) ws s' 0)
    as (n & cs & Hn & Hcat & Hall & Hrun).
  - lia.
  - apply find_ready_insert; [exact Hf|]. unfold ready. simpl.
    now rewrite Hd.
  - apply list_lookup_insert_eq. now apply lookup_lt_Some in Hs.
  - reflexivity.
  - exact Hd.
  - exists (S n), cs. repeat split; [lia|exact Hcat|exact Hall|].
    cbn [loop]. rewrite (tick_open_ok ss ws s Hf Hs Hst Ho).
    subst s'. rewrite Hrun.
    f_equal. now rewrite list_insert_insert_eq.
Qed.

End OnePipe.

(** ** Loading the module *)

Lemma cmd_js_library m p :
  is_entry_point (p_env p) m = false ->
  cmd_js m p =
    (length (p_streams p), with_streams (p_streams p ++ [doc_stream m []]) p).
Proof.
  intros Hne.
  unfold cmd_js, bind, fs_createReadStream, require_main_is, ret. simpl.
  rewrite Hne. destruct p; reflexivity.
Qed.

Lemma cmd_js_main m p :
  is_entry_point (p_env p) m = true ->
  cmd_js m p =
    (length (p_streams p),
     with_streams (p_streams p ++ [doc_stream m [length (p_writables p)]])
       (with_writables
          (p_writables p ++ [{| w_kind := PagerStdin; w_log := [] |}]) p)).
Proof.
  intros He.
  unfold cmd_js, bind, fs_createReadStream, require_main_is, ret, pager,
    new_writable, pipe. simpl.
  rewrite He. destruct p as [e ss ws ca out err ex]. simpl.
  unfold with_streams, with_writables. simpl. f_equal. f_equal.
  rewrite <- (Nat.add_0_r (length ss)) at 1. now rewrite alter_app_r.
Qed.

Lemma document_open e m data :
  document e m = Some (File data true) ->
  fs_open e (document_path m)
  = inr (Path.resolve (e_cwd e) (document_path m)).
Proof. unfold document, fs_open. intros H. simpl. now rewrite H. Qed.

Lemma document_read e m data r :
  document e m = Some (File data r) ->
  fs_read e (Path.resolve (e_cwd e) (document_path m)) = data.
Proof. unfold document, fs_read. intros H. now rewrite H. Qed.

(** ** One consumer, readable Document *)

Lemma w_bytes_log k cs :
  w_bytes {| w_kind := k; w_log := map Data cs ++ [End] |} = concat cs.
Proof.
  unfold w_bytes. simpl. rewrite map_app, concat_app. simpl.
  rewrite app_nil_r. f_equal. induction cs as [|c cs IH]; simpl; congruence.
Qed.

(** A process whose only stream is piped into its only writable runs to
    a normal exit, and the writable has then been sent the file in chunks
    followed by [End]. *)
Lemma one_consumer_run e path k oe ino :
  fs_open e path = inr ino ->
  exists cs,
    concat cs = fs_read e ino /\
    Forall (fun c => 0 < length c <= Pos.to_nat (e_highWaterMark e)) cs /\
    forall fuel, length (fs_read e ino) + 3 <= fuel ->
      loop fuel
        {| p_env := e;
           p_streams := [{| rs_path := path; rs_status := Opening;
                            rs_dests := [0]; rs_onerror := oe |}];
           p_writables := [{| w_kind := k; w_log := [] |}];
           p_caught := []; p_stdout := []; p_stderr := [];
           p_exit := None |}
      = {| p_env := e;
           p_streams := [{| rs_path := path; rs_status := Ended;
                            rs_dests := []; rs_onerror := oe |}];
           p_writables := [{| w_kind := k; w_log := map Data cs ++ [End] |}];
           p_caught := []; p_stdout := []; p_stderr := [];
           p_exit := Some 0 |}.
Proof.
  intros Ho.
  destruct (pipe_to_end e [] [] [] 0 0 ino
              [{| rs_path := path; rs_status := Opening;
                  rs_dests := [0]; rs_onerror := oe |}]
              [{| w_kind := k; w_log := [] |}] _
              eq_refl eq_refl eq_refl eq_refl Ho)
    as (n & cs & Hn & Hcat & Hall & Hrun).
  exists cs. repeat split; [exact Hcat|exact Hall|].
  intros fuel Hfuel. apply (loop_settled (n + 1) _ _ 0); [|reflexivity|lia].
  rewrite loop_add, Hrun. reflexivity.
Qed.

Lemma boot_main e m :
  is_entry_point e m = true ->
  exec (cmd_js m) (boot e)
  = {| p_env := e; p_streams := [doc_stream m [0]];
       p_writables := [{| w_kind := PagerStdin; w_log := [] |}];
       p_caught := []; p_stdout := []; p_stderr := []; p_exit := None |}.
Proof. intros H. unfold exec. now rewrite (cmd_js_main m (boot e) H). Qed.

Lemma boot_library e m :
  is_entry_point e m = false ->
  exec (cmd_js m) (boot e)
  = {| p_env := e; p_streams := [doc_stream m []];
       p_writables := [];
       p_caught := []; p_stdout := []; p_stderr := []; p_exit := None |}.
Proof. intros H. unfold exec. now rewrite (cmd_js_library m (boot e) H). Qed.

(** C1. In entry-point mode the pager is sent the Document, byte for
    byte and in file order, as a sequence of chunks followed by the end
    signal; nothing is lost, repeated or altered, and the process then
    exits normally. *)
Theorem entry_point_forwards_document e m data fuel :
  is_entry_point e m = true ->
  document e m = Some (File data true) ->
  length data + 3 <= fuel ->
  exists chunks,
    concat chunks = data /\
    p_writables (run_command e m fuel)
    = [{| w_kind := PagerStdin; w_log := map Data chunks ++ [End] |}] /\
    received (run_command e m fuel) 0 = data /\
    p_exit (run_command e m fuel) = Some 0.
Proof.
  intros Hmain Hdoc Hfuel.
  pose proof (document_open e m data Hdoc) as Ho.
  pose proof (document_read e m data true Hdoc) as Hr.
  destruct (one_consumer_run e (document_path m) PagerStdin false _ Ho)
    as (cs & Hcat & _ & Hrun).
  rewrite Hr in Hcat, Hrun.
  exists cs. split; [exact Hcat|].
  unfold received, run_command, node. rewrite (boot_main e m Hmain).
  unfold doc_stream. rewrite (Hrun fuel Hfuel). cbn [p_writables p_exit].
  repeat split. rewrite <- Hcat. apply w_bytes_log.
Qed.

Lemma entry_point_forwards_document_witness :
  exists chunks,
    concat chunks = readme_head /\
    p_writables (run_command (installed (filename cmd_module) 5)
                             cmd_module 30)
    = [{| w_kind := PagerStdin; w_log := map Data chunks ++ [End] |}] /\
    received (run_command (installed (filename cmd_module) 5) cmd_module 30) 0
    = readme_head /\
    p_exit (run_command (installed (filename cmd_module) 5) cmd_module 30)
    = Some 0.
Proof.
  apply (entry_point_forwards_document
           (installed (filename cmd_module) 5) cmd_module readme_head 30).
  - reflexivity.
  - vm_compute. reflexivity.
  - vm_compute. lia.
Defined.

(** ** What no turn of the loop and no importer action touches *)

Lemma exec_bind {A B} (c : Node A) (k : A -> Node B) p :
  exec (bind c k) p = exec (k (fst (c p))) (exec c p).
Proof. unfold exec, bind. now destruct (c p). Qed.

Lemma alter_log_kinds evs d (ws : list Writable) :
  map w_kind (alter (log_append evs) d ws) = map w_kind ws.
Proof.
  revert d. induction ws as [|w ws IH]; intros [|d]; simpl; try reflexivity.
  f_equal. apply IH.
Qed.

Lemma write_all_kinds ds ev ws :
  map w_kind (write_all ds ev ws) = map w_kind ws.
Proof.
  revert ws. induction ds as [|d ds IH]; intros ws; [reflexivity|].
  unfold write_all in *. simpl. rewrite IH. apply alter_log_kinds.
Qed.

Lemma emit_error_frame h s er p :
  p_env (emit_error h s er p) = p_env p /\
  p_streams (emit_error h s er p) = p_streams p /\
  p_writables (emit_error h s er p) = p_writables p /\
  p_stdout (emit_error h s er p) = p_stdout p.
Proof. unfold emit_error. destruct (rs_onerror s); repeat split. Qed.

(** A turn of the loop creates no writable, changes the kind of none,
    and writes nothing on the process's own standard output. *)
Lemma tick_frame p :
  map w_kind (p_writables (tick p)) = map w_kind (p_writables p) /\
  p_stdout (tick p) = p_stdout p /\
  p_env (tick p) = p_env p.
Proof.
  unfold tick. destruct (p_exit p); [repeat split|].
  destruct (find_ready (p_streams p)) as [h|]; [|repeat split].
  destruct (p_streams p !! h) as [s|]; [|repeat split].
  unfold step_stream. destruct (rs_status s); [| | |repeat split].
  - destruct (fs_open (p_env p) (rs_path s)) as [er|ino]; [|repeat split].
    destruct (emit_error_frame h s er
      (with_streams (<[h:=set_status (Errored er) s]> (p_streams p)) p))
      as (He & _ & Hw & Ho).
    rewrite Hw, Ho, He. repeat split.
  - destruct (take _ _); simpl; repeat split; apply write_all_kinds.
  - simpl. repeat split. apply write_all_kinds.
Qed.

Lemma loop_frame fuel p :
  map w_kind (p_writables (loop fuel p)) = map w_kind (p_writables p) /\
  p_stdout (loop fuel p) = p_stdout p /\
  p_env (loop fuel p) = p_env p.
Proof.
  revert p. induction fuel as [|n IH]; intros p; simpl; [repeat split|].
  destruct (IH (tick p)) as (Hk & Ho & He).
  destruct (tick_frame p) as (Hk' & Ho' & He').
  rewrite Hk, Ho, He, Hk', Ho', He'. repeat split.
Qed.

Lemma act_frame h a p :
  (Forall (fun k => k = Sink) (map w_kind (p_writables p)) ->
   Forall (fun k => k = Sink) (map w_kind (p_writables (exec (act h a) p)))) /\
  p_stdout (exec (act h a) p) = p_stdout p.
Proof.
  destruct a; simpl; split; try reflexivity; try tauto.
  intros H. unfold exec. simpl. rewrite map_app. apply Forall_app. split; [exact H|].
  repeat constructor.
Qed.

Lemma acts_frame h l p :
  (Forall (fun k => k = Sink) (map w_kind (p_writables p)) ->
   Forall (fun k => k = Sink) (map w_kind (p_writables (exec (acts h l) p)))) /\
  p_stdout (exec (acts h l) p) = p_stdout p.
Proof.
  revert p. induction l as [|a l IH]; intros p; simpl; [split; tauto|].
  rewrite exec_bind.
  destruct (IH (exec (act h a) p)) as (Hk & Ho).
  destruct (act_frame h a p) as (Hk' & Ho').
  split; [tauto|congruence].
Qed.

Lemma exec_importer m l p :
  exec (importer m l) p = exec (acts (fst (cmd_js m p)) l) (exec (cmd_js m) p).
Proof.
  unfold importer. rewrite exec_bind. rewrite exec_bind. reflexivity.
Qed.

(** C2. Evaluated in a process whose entry point is another module, the
    module changes the process by the new stream handle and nothing else.
    In a program started in that environment, whatever the importer then
    does with the handle and however long the loop runs, no pager exists
    (every writable is a sink the importer made itself) and nothing is
    written on standard output. *)
Theorem library_mode_no_display p m l fuel :
  is_entry_point (p_env p) m = false ->
  cmd_js m p =
    (length (p_streams p), with_streams (p_streams p ++ [doc_stream m []]) p)
  /\
  Forall (fun w => is_pager w = false)
         (p_writables (run_importer (p_env p) m l fuel)) /\
  p_stdout (run_importer (p_env p) m l fuel) = [].
Proof.
  intros Hlib. set (e := p_env p) in *. split; [|split].
  - now apply cmd_js_library.
  - unfold run_importer, node.
    destruct (loop_frame fuel (exec (importer m l) (boot e))) as (Hk & _ & _).
    rewrite exec_importer in *.
    destruct (acts_frame (fst (cmd_js m (boot e))) l (exec (cmd_js m) (boot e)))
      as (Hs & _).
    rewrite (boot_library e m Hlib) in *.
    specialize (Hs (Forall_nil_2 _)). rewrite <- Hk in Hs.
    rewrite Forall_fmap in Hs. eapply Forall_impl; [exact Hs|].
    intros w Hw. unfold is_pager. simpl in Hw. now rewrite Hw.
  - unfold run_importer, node.
    destruct (loop_frame fuel (exec (importer m l) (boot e))) as (_ & Ho & _).
    rewrite Ho, exec_importer.
    destruct (acts_frame (fst (cmd_js m (boot e))) l (exec (cmd_js m) (boot e)))
      as (_ & Ho').
    rewrite Ho'. now rewrite (boot_library e m Hlib).
Qed.

Lemma library_mode_no_display_witness :
  cmd_js cmd_module (boot (installed "/app/index.js" 65536)) =
    (0, with_streams [doc_stream cmd_module []]
          (boot (installed "/app/index.js" 65536)))
  /\
  Forall (fun w => is_pager w = false)
         (p_writables (run_importer (installed "/app/index.js" 65536)
                                    cmd_module [PipeToSink; OnError] 9)) /\
  p_stdout (run_importer (installed "/app/index.js" 65536)
                         cmd_module [PipeToSink; OnError] 9) = [].
Proof.
  apply (library_mode_no_display (boot (installed "/app/index.js" 65536))
           cmd_module [PipeToSink; OnError] 9).
  reflexivity.
Defined.

(** ** Importers, seen from the stream *)

(** An importer's actions on the only stream of a process leave its path
    and status alone; they add destinations, all of them sinks, and
    possibly an 'error' listener. *)
Lemma acts_on_single e l : forall s ws ca out err ex,
  exists ds ws',
    exec (acts 0 l)
      {| p_env := e; p_streams := [s]; p_writables := ws; p_caught := ca;
         p_stdout := out; p_stderr := err; p_exit := ex |}
    = {| p_env := e;
         p_streams := [{| rs_path := rs_path s; rs_status := rs_status s;
                          rs_dests := ds;
                          rs_onerror := rs_onerror s || has_on_error l |}];
         p_writables := ws'; p_caught := ca;
         p_stdout := out; p_stderr := err; p_exit := ex |}.
Proof.
  induction l as [|a l IH]; intros s ws ca out err ex.
  - exists (rs_dests s), ws. unfold exec. simpl. rewrite orb_false_r.
    now destruct s.
  - simpl acts. rewrite exec_bind. destruct a.
    + destruct (IH (add_dest (length ws) s)
                   (ws ++ [{| w_kind := Sink; w_log := [] |}]) ca out err ex)
        as (ds & ws' & H).
      exists ds, ws'. exact H.
    + destruct (IH (listen_error s) ws ca out err ex) as (ds & ws' & H).
      exists ds, ws'. unfold exec at 2. simpl.
      unfold with_streams. simpl. rewrite H. simpl.
      now rewrite orb_true_r.
Qed.

Lemma boot_importer_pipe e m :
  is_entry_point e m = false ->
  exec (importer m [PipeToSink]) (boot e)
  = {| p_env := e; p_streams := [doc_stream m [0]];
       p_writables := [{| w_kind := Sink; w_log := [] |}];
       p_caught := []; p_stdout := []; p_stderr := []; p_exit := None |}.
Proof.
  intros H. rewrite exec_importer, (boot_library e m H).
  now rewrite (cmd_js_library m (boot e) H).
Qed.

(** C3. The module exports one value, the handle of a read stream over
    the Document. A consumer that attaches its own destination is sent the
    Document's bytes once, first to last, in non-empty chunks, and then
    the end signal; the stream is then in its ended state. *)
Theorem library_stream_emits_document_once e m data fuel :
  is_entry_point e m = false ->
  document e m = Some (File data true) ->
  length data + 3 <= fuel ->
  p_streams (exec (cmd_js m) (boot e)) !! fst (cmd_js m (boot e))
  = Some (doc_stream m []) /\
  exists chunks,
    concat chunks = data /\
    Forall (fun c => c <> []) chunks /\
    p_writables (run_importer e m [PipeToSink] fuel)
    = [{| w_kind := Sink; w_log := map Data chunks ++ [End] |}] /\
    received (run_importer e m [PipeToSink] fuel) 0 = data /\
    p_streams (run_importer e m [PipeToSink] fuel)
    = [ended (doc_stream m [])].
Proof.
  intros Hlib Hdoc Hfuel. split.
  - rewrite (boot_library e m Hlib), (cmd_js_library m (boot e) Hlib).
    reflexivity.
  - pose proof (document_open e m data Hdoc) as Ho.
    pose proof (document_read e m data true Hdoc) as Hr.
    destruct (one_consumer_run e (document_path m) Sink false _ Ho)
      as (cs & Hcat & Hall & Hrun).
    rewrite Hr in Hcat, Hrun.
    exists cs. split; [exact Hcat|]. split.
    + eapply Forall_impl; [exact Hall|]. intros c [Hc _] ->. simpl in Hc. lia.
    + unfold received, run_importer, node.
      rewrite (boot_importer_pipe e m Hlib). unfold doc_stream.
      rewrite (Hrun fuel Hfuel). cbn [p_writables p_streams].
      repeat split. rewrite <- Hcat. apply w_bytes_log.
Qed.

Lemma library_stream_emits_document_once_witness :
  p_streams (exec (cmd_js cmd_module) (boot (installed "/app/index.js" 8)))
    !! fst (cmd_js cmd_module (boot (installed "/app/index.js" 8)))
  = Some (doc_stream cmd_module []) /\
  exists chunks,
    concat chunks = readme_head /\
    Forall (fun c => c <> []) chunks /\
    p_writables (run_importer (installed "/app/index.js" 8)
                              cmd_module [PipeToSink] 26)
    = [{| w_kind := Sink; w_log := map Data chunks ++ [End] |}] /\
    received (run_importer (installed "/app/index.js" 8)
                           cmd_module [PipeToSink] 26) 0
    = readme_head /\
    p_streams (run_importer (installed "/app/index.js" 8)
                            cmd_module [PipeToSink] 26)
    = [ended (doc_stream cmd_module [])].
Proof.
  apply (library_stream_emits_document_once
           (installed "/app/index.js" 8) cmd_module readme_head 26).
  - reflexivity.
  - vm_compute. reflexivity.
  - vm_compute. lia.
Defined.

(** ** The Document cannot be opened *)

Lemma document_missing e m :
  document e m = None -> fs_open e (document_path m) = inl ENOENT.
Proof. unfold document, fs_open. intros H. simpl. now rewrite H. Qed.

Lemma document_denied e m data :
  document e m = Some (File data false) ->
  fs_open e (document_path m) = inl EACCES.
Proof. unfold document, fs_open. intros H. simpl. now rewrite H. Qed.

(** The first turn of the loop on a process whose only stream cannot be
    opened. *)
Lemma tick_single_open_fail e s ws ca out err er :
  rs_status s = Opening -> fs_open e (rs_path s) = inl er ->
  tick {| p_env := e; p_streams := [s]; p_writables := ws; p_caught := ca;
          p_stdout := out; p_stderr := err; p_exit := None |}
  = emit_error 0 s er
      {| p_env := e; p_streams := [set_status (Errored er) s];
         p_writables := ws; p_caught := ca;
         p_stdout := out; p_stderr := err; p_exit := None |}.
Proof.
  intros Hst Ho.
  apply (tick_open_fail e ca out err 0 [s] ws s er); try assumption.
  - simpl. unfold ready. now rewrite Hst.
  - reflexivity.
Qed.

(** C4. With the Document absent the open fails with [ENOENT]. Run as
    the command, the process is killed by the unhandled error: the exit
    code is 1; the error channel carries Node's report of the uncaught
    exception, whose fifth line reads [Error: ENOENT: no such file or
    directory, open '...'] with the path the module asked for, and whose
    last lines repeat the code, the system call and the path; nothing is
    on standard output, the pager having been spawned and sent nothing. *)
Theorem missing_document_cli e m fuel :
  is_entry_point e m = true ->
  document e m = None ->
  1 <= fuel ->
  fs_open e (document_path m) = inl ENOENT /\
  p_streams (run_command e m fuel)
  = [{| rs_path := document_path m; rs_status := Errored ENOENT;
        rs_dests := [0]; rs_onerror := false |}] /\
  p_exit (run_command e m fuel) = Some 1 /\
  p_stderr (run_command e m fuel)
  = [rt_throw_site (e_runtime e);
     "      throw er; // Unhandled 'error' event";
     "      ^";
     "";
     "Error: ENOENT: no such file or directory, open '"
       +:+ document_path m +:+ "'";
     "Emitted 'error' event on ReadStream instance at:"]
    ++ rt_emit_frames (e_runtime e)
    ++ ["  errno: -2,";
        "  code: 'ENOENT',";
        "  syscall: 'open',";
        "  path: '" +:+ document_path m +:+ "'";
        "}";
        "";
        rt_version (e_runtime e)] /\
  standard_output (run_command e m fuel) = [] /\
  p_writables (run_command e m fuel)
  = [{| w_kind := PagerStdin; w_log := [] |}].
Proof.
  intros Hmain Hdoc Hfuel. pose proof (document_missing e m Hdoc) as Ho.
  split; [exact Ho|].
  unfold run_command, node. rewrite (boot_main e m Hmain).
  pose proof (tick_single_open_fail e (doc_stream m [0])
                [{| w_kind := PagerStdin; w_log := [] |}] [] [] [] ENOENT
                eq_refl Ho) as Ht.
  rewrite (loop_settled 1 _ _ 1 fuel Ht eq_refl Hfuel).
  repeat split.
Qed.

Lemma missing_document_cli_witness :
  fs_open (broken (filename cmd_module)) (document_path cmd_module)
  = inl ENOENT /\
  p_streams (run_command (broken (filename cmd_module)) cmd_module 4)
  = [{| rs_path := document_path cmd_module; rs_status := Errored ENOENT;
        rs_dests := [0]; rs_onerror := false |}] /\
  p_exit (run_command (broken (filename cmd_module)) cmd_module 4) = Some 1 /\
  p_stderr (run_command (broken (filename cmd_module)) cmd_module 4)
  = [rt_throw_site (e_runtime (broken (filename cmd_module)));
     "      throw er; // Unhandled 'error' event";
     "      ^";
     "";
     "Error: ENOENT: no such file or directory, open '"
       +:+ document_path cmd_module +:+ "'";
     "Emitted 'error' event on ReadStream instance at:"]
    ++ rt_emit_frames (e_runtime (broken (filename cmd_module)))
    ++ ["  errno: -2,";
        "  code: 'ENOENT',";
        "  syscall: 'open',";
        "  path: '" +:+ document_path cmd_module +:+ "'";
        "}";
        "";
        rt_version (e_runtime (broken (filename cmd_module)))] /\
  standard_output (run_command (broken (filename cmd_module)) cmd_module 4)
  = [] /\
  p_writables (run_command (broken (filename cmd_module)) cmd_module 4)
  = [{| w_kind := PagerStdin; w_log := [] |}].
Proof.
  apply (missing_document_cli (broken (filename cmd_module)) cmd_module 4).
  - reflexivity.
  - vm_compute. reflexivity.
  - lia.
Defined.

(** C5, as first stated, fails. An importer that pipes the handle into
    its own destination and does not listen for 'error' is killed when the
    Document is missing: it is not so that a failed open never ends the
    importing process. *)
Lemma unhandled_open_failure_kills_importer :
  ~ (is_entry_point (broken "/app/index.js") cmd_module = false ->
     (exists er,
        fs_open (broken "/app/index.js") (document_path cmd_module) = inl er) ->
     p_exit (run_importer (broken "/app/index.js") cmd_module [PipeToSink] 1)
     <> Some uncaught_exception_exit_code).
Proof.
  intros H.
  apply (H eq_refl (ex_intro _ ENOENT eq_refl)).
  vm_compute. reflexivity.
Qed.

(** C5 (amended). In library mode a Document that cannot be opened
    fails the stream, whatever the importer has attached to the handle on
    requiring the module: the handle goes to its errored state with
    [ENOENT] or [EACCES]. When the importer has put an 'error' listener
    on the handle, the error is handed to that listener, nothing is
    printed on the error channel, and the process is not killed: it exits
    with code 0 once nothing is pending. Without a listener nothing is
    caught and the process dies with exit code 1. *)
Theorem library_error_reaches_listener e m l er fuel :
  is_entry_point e m = false ->
  fs_open e (document_path m) = inl er ->
  1 <= fuel ->
  map rs_status (p_streams (run_importer e m l fuel)) = [Errored er] /\
  if has_on_error l
  then p_caught (run_importer e m l fuel) = [(0, er)] /\
       p_stderr (run_importer e m l fuel) = [] /\
       p_exit (run_importer e m l fuel)
       = (match fuel with 1 => None | _ => Some 0 end)
  else p_caught (run_importer e m l fuel) = [] /\
       p_exit (run_importer e m l fuel) = Some 1.
Proof.
  intros Hlib Ho Hfuel. unfold run_importer, node.
  rewrite exec_importer, (boot_library e m Hlib),
    (cmd_js_library m (boot e) Hlib).
  cbn [fst boot p_streams length].
  destruct (acts_on_single e l (doc_stream m []) [] [] [] [] None)
    as (ds & ws & Hacts).
  rewrite Hacts. cbn [doc_stream rs_path rs_status rs_onerror orb].
  destruct (has_on_error l).
  - set (s := {| rs_path := document_path m; rs_status := Opening;
                 rs_dests := ds; rs_onerror := true |}).
    pose proof (tick_single_open_fail e s ws [] [] [] er eq_refl Ho) as Ht.
    destruct fuel as [|[|fuel]]; [lia| |].
    + cbn [loop]. rewrite Ht. repeat split.
    + rewrite (loop_settled 2 _
                 {| p_env := e; p_streams := [set_status (Errored er) s];
                    p_writables := ws; p_caught := [(0, er)];
                    p_stdout := []; p_stderr := []; p_exit := Some 0 |}
                 0 (S (S fuel))); [repeat split| |reflexivity|lia].
      cbn [loop]. rewrite Ht. reflexivity.
  - set (s := {| rs_path := document_path m; rs_status := Opening;
                 rs_dests := ds; rs_onerror := false |}).
    pose proof (tick_single_open_fail e s ws [] [] [] er eq_refl Ho) as Ht.
    rewrite (loop_settled 1 _ _ 1 fuel Ht eq_refl Hfuel).
    repeat split.
Qed.

Lemma library_error_reaches_listener_witness :
  map rs_status
      (p_streams (run_importer (broken "/app/index.js")
                               cmd_module [OnError; PipeToSink] 3))
  = [Errored ENOENT] /\
  p_caught (run_importer (broken "/app/index.js")
                         cmd_module [OnError; PipeToSink] 3)
  = [(0, ENOENT)] /\
  p_stderr (run_importer (broken "/app/index.js")
                         cmd_module [OnError; PipeToSink] 3) = [] /\
  p_exit (run_importer (broken "/app/index.js")
                       cmd_module [OnError; PipeToSink] 3)
  = Some 0.
Proof.
  apply (library_error_reaches_listener
           (broken "/app/index.js") cmd_module [OnError; PipeToSink] ENOENT 3).
  - reflexivity.
  - vm_compute. reflexivity.
  - lia.
Defined.

(** ** Invocations, one after another *)

Lemma boot_obtain_and_consume e m :
  exists k,
    exec (obtain_and_consume e m) (boot e)
    = {| p_env := e; p_streams := [doc_stream m [0]];
         p_writables := [{| w_kind := k; w_log := [] |}];
         p_caught := []; p_stdout := []; p_stderr := []; p_exit := None |}.
Proof.
  unfold obtain_and_consume. destruct (is_entry_point e m) eqn:E.
  - exists PagerStdin. now apply boot_main.
  - exists Sink. now apply boot_importer_pipe.
Qed.

Lemma consumer_receives e m data fuel :
  document e m = Some (File data true) ->
  length data + 3 <= fuel ->
  received (node e (obtain_and_consume e m) fuel) 0 = data /\
  p_exit (node e (obtain_and_consume e m) fuel) = Some 0 /\
  p_env (node e (obtain_and_consume e m) fuel) = e.
Proof.
  intros Hdoc Hfuel.
  pose proof (document_open e m data Hdoc) as Ho.
  pose proof (document_read e m data true Hdoc) as Hr.
  destruct (boot_obtain_and_consume e m) as (k & Hboot).
  destruct (one_consumer_run e (document_path m) k false _ Ho)
    as (cs & Hcat & _ & Hrun).
  rewrite Hr in Hcat, Hrun.
  unfold received, node. rewrite Hboot. unfold doc_stream.
  rewrite (Hrun fuel Hfuel). cbn [p_writables p_exit p_env].
  repeat split. rewrite <- Hcat. apply w_bytes_log.
Qed.

(** C6. Two invocations, in whatever mode, working directory, arguments
    and chunk size, of installations whose Document holds the same bytes
    send their consumers the same bytes, the Document's; and a run leaves
    the environment, the filesystem with it, as it found it. *)
Theorem two_invocations_same_bytes e1 e2 m data fuel1 fuel2 :
  document e1 m = Some (File data true) ->
  document e2 m = Some (File data true) ->
  length data + 3 <= fuel1 ->
  length data + 3 <= fuel2 ->
  received (node e1 (obtain_and_consume e1 m) fuel1) 0
  = received (node e2 (obtain_and_consume e2 m) fuel2) 0 /\
  received (node e1 (obtain_and_consume e1 m) fuel1) 0 = data /\
  p_env (node e1 (obtain_and_consume e1 m) fuel1) = e1.
Proof.
  intros H1 H2 Hf1 Hf2.
  destruct (consumer_receives e1 m data fuel1 H1 Hf1) as (R1 & _ & E1).
  destruct (consumer_receives e2 m data fuel2 H2 Hf2) as (R2 & _ & _).
  rewrite R1, R2. repeat split. exact E1.
Qed.

Lemma two_invocations_same_bytes_witness :
  received (node (installed (filename cmd_module) 5)
                 (obtain_and_consume (installed (filename cmd_module) 5)
                                     cmd_module) 26) 0
  = received (node (installed "/app/index.js" 65536)
                   (obtain_and_consume (installed "/app/index.js" 65536)
                                       cmd_module) 30) 0 /\
  received (node (installed (filename cmd_module) 5)
                 (obtain_and_consume (installed (filename cmd_module) 5)
                                     cmd_module) 26) 0
  = readme_head /\
  p_env (node (installed (filename cmd_module) 5)
              (obtain_and_consume (installed (filename cmd_module) 5)
                                  cmd_module) 26)
  = installed (filename cmd_module) 5.
Proof.
  apply (two_invocations_same_bytes
           (installed (filename cmd_module) 5)
           (installed "/app/index.js" 65536) cmd_module readme_head 26 30).
  - vm_compute. reflexivity.
  - vm_compute. reflexivity.
  - vm_compute. lia.
  - vm_compute. lia.
Defined.

(** A pipe runs to a normal exit when no other stream has work left. *)
Lemma pipe_settles e ca out err h d ino ss ws s :
  find_ready ss = Some h -> ss !! h = Some s ->
  rs_status s = Opening -> rs_dests s = [d] ->
  fs_open e (rs_path s) = inr ino ->
  find_ready (<[h := ended s]> ss) = None ->
  exists cs,
    concat cs = fs_read e ino /\
    forall fuel, length (fs_read e ino) + 3 <= fuel ->
      loop fuel
        {| p_env := e; p_streams := ss; p_writables := ws; p_caught := ca;
           p_stdout := out; p_stderr := err; p_exit := None |}
      = {| p_env := e; p_streams := <[h := ended s]> ss;
           p_writables := alter (log_append (map Data cs ++ [End])) d ws;
           p_caught := ca; p_stdout := out; p_stderr := err;
           p_exit := Some 0 |}.
Proof.
  intros Hf Hs Hst Hd Ho Hnone.
  destruct (pipe_to_end e ca out err h d ino ss ws s Hf Hs Hst Hd Ho)
    as (n & cs & Hn & Hcat & _ & Hrun).
  exists cs. split; [exact Hcat|].
  intros fuel Hfuel. apply (loop_settled (n + 1) _ _ 0); [|reflexivity|lia].
  rewrite loop_add, Hrun. cbn [loop]. unfold tick. cbn [p_exit p_streams].
  now rewrite Hnone.
Qed.

Lemma cmd_js_fresh_handle m p :
  fst (cmd_js m p) = length (p_streams p) /\
  length (p_streams (exec (cmd_js m) p)) = S (length (p_streams p)).
Proof.
  unfold exec. destruct (is_entry_point (p_env p) m) eqn:E.
  - rewrite (cmd_js_main m p E). cbn [fst snd with_streams p_streams].
    rewrite length_app. simpl. lia.
  - rewrite (cmd_js_library m p E). cbn [fst snd with_streams p_streams].
    rewrite length_app. simpl. lia.
Qed.

(** C7. Every invocation returns a handle that no earlier one returned.
    Once a handle has delivered the Document and signalled the end, it
    stays ended: a destination attached afterwards is sent no byte however
    long the loop runs. Reading again takes a fresh invocation; its new
    handle delivers the Document anew. *)
Theorem stream_not_restartable e m data p fuel k :
  is_entry_point e m = false ->
  document e m = Some (File data true) ->
  length data + 3 <= fuel ->
  fst (cmd_js m p) = length (p_streams p) /\
  length (p_streams (exec (cmd_js m) p)) = S (length (p_streams p)) /\
  exists n,
    map rs_status
        (p_streams (loop n (exec (importer m [PipeToSink]) (boot e))))
    = [Ended] /\
    received (loop n (exec (importer m [PipeToSink]) (boot e))) 0 = data /\
    p_exit (loop n (exec (importer m [PipeToSink]) (boot e))) = None /\
    received
      (loop k (exec (act 0 PipeToSink)
                 (loop n (exec (importer m [PipeToSink]) (boot e))))) 1 = [] /\
    map rs_status
      (p_streams
         (loop k (exec (act 0 PipeToSink)
                    (loop n (exec (importer m [PipeToSink]) (boot e))))))
    = [Ended] /\
    fst (importer m [PipeToSink]
           (loop n (exec (importer m [PipeToSink]) (boot e)))) = 1 /\
    received
      (loop fuel (exec (importer m [PipeToSink])
                    (loop n (exec (importer m [PipeToSink]) (boot e))))) 1
    = data.
Proof.
  intros Hlib Hdoc Hfuel.
  destruct (cmd_js_fresh_handle m p) as (Hh & Hlen).
  split; [exact Hh|]. split; [exact Hlen|].
  pose proof (document_open e m data Hdoc) as Ho.
  pose proof (document_read e m data true Hdoc) as Hr.
  set (ino := Path.resolve (e_cwd e) (document_path m)) in *.
  (* first invocation, up to the end of the stream *)
  destruct (pipe_to_end e [] [] [] 0 0 ino [doc_stream m [0]]
              [{| w_kind := Sink; w_log := [] |}] (doc_stream m [0])
              eq_refl eq_refl eq_refl eq_refl Ho)
    as (n & cs & _ & Hcat & _ & Hrun).
  rewrite Hr in Hcat.
  set (w0 := {| w_kind := Sink; w_log := map Data cs ++ [End] |}).
  set (s0 := {| rs_path := document_path m; rs_status := Ended;
                rs_dests := []; rs_onerror := false |}).
  assert (Hend : loop n (exec (importer m [PipeToSink]) (boot e))
                 = {| p_env := e; p_streams := [s0]; p_writables := [w0];
                      p_caught := []; p_stdout := []; p_stderr := [];
                      p_exit := None |}).
  { rewrite (boot_importer_pipe e m Hlib), Hrun. reflexivity. }
  exists n. rewrite Hend.
  assert (Hw0 : w_bytes w0 = data).
  { subst w0. rewrite <- Hcat. apply w_bytes_log. }
  split; [reflexivity|]. split; [exact Hw0|]. split; [reflexivity|].
  (* a destination attached after the end *)
  assert (Hlate : forall j,
            exists evs,
              loop j (exec (act 0 PipeToSink)
                        {| p_env := e; p_streams := [s0];
                           p_writables := [w0]; p_caught := [];
                           p_stdout := []; p_stderr := []; p_exit := None |})
              = {| p_env := e;
                   p_streams := [{| rs_path := document_path m;
                                    rs_status := Ended;
                                    rs_dests := match j with 0 => [1] | _ => [] end;
                                    rs_onerror := false |}];
                   p_writables := [w0; {| w_kind := Sink; w_log := evs |}];
                   p_caught := []; p_stdout := []; p_stderr := [];
                   p_exit := match j with S (S _) => Some 0 | _ => None end |}
              /\ concat (map wevent_bytes evs) = []).
  { intros [|[|j]].
    - exists []. split; reflexivity.
    - exists [End]. split; reflexivity.
    - exists [End]. split; [|reflexivity].
      apply (loop_settled 2 _ _ 0); [reflexivity|reflexivity|lia]. }
  destruct (Hlate k) as (evs & Hk & Hevs). rewrite Hk.
  split; [exact Hevs|]. split; [reflexivity|].
  (* a fresh invocation in the same process *)
  assert (Hagain : importer m [PipeToSink]
                     {| p_env := e; p_streams := [s0]; p_writables := [w0];
                        p_caught := []; p_stdout := []; p_stderr := [];
                        p_exit := None |}
                   = (1, {| p_env := e;
                            p_streams := [s0; doc_stream m [1]];
                            p_writables := [w0; {| w_kind := Sink; w_log := [] |}];
                            p_caught := []; p_stdout := []; p_stderr := [];
                            p_exit := None |})).
  { unfold importer, bind. rewrite cmd_js_library by exact Hlib. reflexivity. }
  split; [now rewrite Hagain|].
  unfold exec. rewrite Hagain. cbn [snd].
  destruct (pipe_settles e [] [] [] 1 1 ino [s0; doc_stream m [1]]
              [w0; {| w_kind := Sink; w_log := [] |}] (doc_stream m [1])
              eq_refl eq_refl eq_refl eq_refl Ho eq_refl)
    as (cs' & Hcat' & Hrun').
  rewrite Hr in Hcat', Hrun'. rewrite (Hrun' fuel Hfuel).
  unfold received. rewrite <- Hcat'. apply (w_bytes_log Sink).
Qed.

Lemma stream_not_restartable_witness :
  fst (cmd_js cmd_module (boot (installed "/app/index.js" 8))) = 0 /\
  length (p_streams (exec (cmd_js cmd_module)
                          (boot (installed "/app/index.js" 8)))) = 1 /\
  exists n,
    map rs_status
        (p_streams (loop n (exec (importer cmd_module [PipeToSink])
                                 (boot (installed "/app/index.js" 8)))))
    = [Ended] /\
    received (loop n (exec (importer cmd_module [PipeToSink])
                           (boot (installed "/app/index.js" 8)))) 0
    = readme_head /\
    p_exit (loop n (exec (importer cmd_module [PipeToSink])
                         (boot (installed "/app/index.js" 8)))) = None /\
    received
      (loop 7 (exec (act 0 PipeToSink)
                 (loop n (exec (importer cmd_module [PipeToSink])
                               (boot (installed "/app/index.js" 8)))))) 1
    = [] /\
    map rs_status
      (p_streams
         (loop 7 (exec (act 0 PipeToSink)
                    (loop n (exec (importer cmd_module [PipeToSink])
                                  (boot (installed "/app/index.js" 8)))))))
    = [Ended] /\
    fst (importer cmd_module [PipeToSink]
           (loop n (exec (importer cmd_module [PipeToSink])
                         (boot (installed "/app/index.js" 8))))) = 1 /\
    received
      (loop 26 (exec (importer cmd_module [PipeToSink])
                  (loop n (exec (importer cmd_module [PipeToSink])
                                (boot (installed "/app/index.js" 8)))))) 1
    = readme_head.
Proof.
  apply (stream_not_restartable (installed "/app/index.js" 8) cmd_module
           readme_head (boot (installed "/app/index.js" 8)) 26 7).
  - reflexivity.
  - vm_compute. reflexivity.
  - vm_compute. lia.
Defined.

(** ** Two environments that open the same files *)

Lemma fs_read_agree e e' ino : e_fs e' = e_fs e -> fs_read e' ino = fs_read e ino.
Proof. unfold fs_read. now intros ->. Qed.

Lemma tick_with_env e' p :
  env_agree (p_env p) e' (map rs_path (p_streams p)) ->
  tick (with_env e' p) = with_env e' (tick p).
Proof.
  intros (Hfs & Hhwm & Hrt & Hopen). unfold tick.
  cbn [with_env p_exit p_streams].
  destruct (p_exit p); [reflexivity|].
  destruct (find_ready (p_streams p)) as [h|]; [|reflexivity].
  destruct (p_streams p !! h) as [s|] eqn:Hs; [|reflexivity].
  assert (Hos : fs_open e' (rs_path s) = fs_open (p_env p) (rs_path s)).
  { rewrite Forall_fmap in Hopen.
    exact (Forall_lookup_1 _ _ _ _ Hopen Hs). }
  unfold step_stream. destruct (rs_status s) as [|ino pos| |er].
  - cbn [with_env p_env]. rewrite Hos.
    destruct (fs_open (p_env p) (rs_path s)); [|reflexivity].
    unfold emit_error, with_streams, with_env. cbn [p_env].
    rewrite Hrt. destruct (rs_onerror s); reflexivity.
  - cbn [with_env p_env]. rewrite Hhwm, (fs_read_agree _ _ ino Hfs).
    destruct (take _ _); reflexivity.
  - reflexivity.
  - reflexivity.
Qed.

Lemma insert_same_path (ss : list ReadStream) h s s' :
  ss !! h = Some s -> rs_path s' = rs_path s ->
  map rs_path (<[h := s']> ss) = map rs_path ss.
Proof.
  intros Hs Hp. change (rs_path <$> <[h := s']> ss = rs_path <$> ss).
  rewrite list_fmap_insert, Hp. apply list_insert_id.
  now rewrite list_lookup_fmap, Hs.
Qed.

(** No turn of the loop changes the path of a stream. *)
Lemma tick_paths p :
  map rs_path (p_streams (tick p)) = map rs_path (p_streams p) /\
  p_env (tick p) = p_env p.
Proof.
  unfold tick. destruct (p_exit p); [now split|].
  destruct (find_ready (p_streams p)) as [h|]; [|now split].
  destruct (p_streams p !! h) as [s|] eqn:Hs; [|now split].
  unfold step_stream. destruct (rs_status s) as [|ino pos| |er].
  - destruct (fs_open (p_env p) (rs_path s)) as [er|ino].
    + destruct (emit_error_frame h s er
        (with_streams (<[h:=set_status (Errored er) s]> (p_streams p)) p))
        as (He & Hss & _ & _).
      rewrite Hss, He. split; [|reflexivity].
      now apply (insert_same_path _ h s).
    + split; [|reflexivity]. now apply (insert_same_path _ h s).
  - destruct (take _ _); (split; [|reflexivity]);
      now apply (insert_same_path _ h s).
  - split; [|reflexivity]. now apply (insert_same_path _ h s).
  - now split.
Qed.

Lemma loop_with_env e' fuel : forall p,
  env_agree (p_env p) e' (map rs_path (p_streams p)) ->
  loop fuel (with_env e' p) = with_env e' (loop fuel p).
Proof.
  induction fuel as [|n IH]; intros p Hag; [reflexivity|].
  cbn [loop]. rewrite (tick_with_env e' p Hag). apply IH.
  destruct (tick_paths p) as (Hp & He). now rewrite Hp, He.
Qed.

Lemma observable_with_env e' p : observable (with_env e' p) = observable p.
Proof. reflexivity. Qed.

(** The synchronous part reads nothing of the environment but which
    module is the entry point. *)
Lemma cmd_js_with_env e' m p :
  is_entry_point e' m = is_entry_point (p_env p) m ->
  cmd_js m (with_env e' p)
  = (fst (cmd_js m p), with_env e' (snd (cmd_js m p))).
Proof.
  intros Hm. destruct (is_entry_point (p_env p) m) eqn:E.
  - rewrite (cmd_js_main m p E), (cmd_js_main m (with_env e' p) Hm).
    reflexivity.
  - rewrite (cmd_js_library m p E), (cmd_js_library m (with_env e' p) Hm).
    reflexivity.
Qed.

Lemma acts_with_env e' h l : forall p,
  exec (acts h l) (with_env e' p) = with_env e' (exec (acts h l) p).
Proof.
  induction l as [|a l IH]; intros p; [reflexivity|].
  simpl acts. rewrite !exec_bind.
  assert (Ha : exec (act h a) (with_env e' p) = with_env e' (exec (act h a) p)).
  { destruct a; reflexivity. }
  rewrite Ha. apply IH.
Qed.

Lemma importer_with_env e' m l p :
  is_entry_point e' m = is_entry_point (p_env p) m ->
  exec (importer m l) (with_env e' p) = with_env e' (exec (importer m l) p).
Proof.
  intros Hm. rewrite !exec_importer. unfold exec at 2 4.
  rewrite (cmd_js_with_env e' m p Hm). cbn [fst snd]. apply acts_with_env.
Qed.

(** After the script every stream of the process is the Document's. *)
Lemma importer_paths e m l :
  map rs_path (p_streams (exec (importer m l) (boot e))) = [document_path m] /\
  p_env (exec (importer m l) (boot e)) = e.
Proof.
  rewrite exec_importer. destruct (is_entry_point e m) eqn:E.
  - rewrite (boot_main e m E), (cmd_js_main m (boot e) E). cbn [fst boot p_streams length].
    destruct (acts_on_single e l (doc_stream m [0])
                [{| w_kind := PagerStdin; w_log := [] |}] [] [] [] None)
      as (ds & ws & H).
    rewrite H. now split.
  - rewrite (boot_library e m E), (cmd_js_library m (boot e) E). cbn [fst boot p_streams length].
    destruct (acts_on_single e l (doc_stream m []) [] [] [] [] None)
      as (ds & ws & H).
    rewrite H. now split.
Qed.

(** Two environments with the same files, the same entry point and the
    same chunk size, in which the Document's path opens alike, cannot be
    told apart by running the module. *)
Lemma run_importer_agree e e' m l fuel :
  e_fs e' = e_fs e -> e_highWaterMark e' = e_highWaterMark e ->
  e_runtime e' = e_runtime e ->
  e_main e' = e_main e ->
  fs_open e' (document_path m) = fs_open e (document_path m) ->
  observable (run_importer e' m l fuel) = observable (run_importer e m l fuel).
Proof.
  intros Hfs Hhwm Hrt Hmain Hopen. unfold run_importer, node.
  destruct (importer_paths e m l) as (Hp & He).
  assert (Hm : is_entry_point e' m = is_entry_point (p_env (boot e)) m).
  { unfold is_entry_point. simpl. now rewrite Hmain. }
  change (boot e') with (with_env e' (boot e)).
  rewrite (importer_with_env e' m l (boot e) Hm).
  rewrite loop_with_env; [apply observable_with_env|].
  rewrite Hp, He. repeat split; [exact Hfs|exact Hhwm|exact Hrt|].
  constructor; [exact Hopen|constructor].
Qed.

Lemma run_command_as_importer e m fuel :
  run_command e m fuel = run_importer e m [] fuel.
Proof.
  unfold run_command, run_importer, node. f_equal.
  rewrite exec_importer. reflexivity.
Qed.

(** ** Where the Document is looked for *)

Lemma append_cons c a b : String c a +:+ b = String c (a +:+ b).
Proof. reflexivity. Qed.

Lemma append_assoc a b c : (a +:+ b) +:+ c = a +:+ (b +:+ c).
Proof.
  induction a as [|x a IH]; [reflexivity|]. now rewrite !append_cons, IH.
Qed.

Lemma append_empty_r a : a +:+ "" = a.
Proof.
  induction a as [|x a IH]; [reflexivity|]. now rewrite append_cons, IH.
Qed.

Lemma split_from_no_slash a : forall cur rest,
  Path.no_slash a = true ->
  Path.split_from cur (a +:+ rest) = Path.split_from (cur +:+ a) rest.
Proof.
  induction a as [|c a IH]; intros cur rest H.
  - now rewrite append_empty_r.
  - simpl in H. apply andb_true_iff in H as [Hc Ha].
    apply negb_true_iff in Hc. rewrite append_cons.
    cbn [Path.split_from]. rewrite Hc.
    rewrite (IH _ rest Ha), append_assoc. reflexivity.
Qed.

Lemma split_from_join xs : forall x cur rest,
  Forall (fun s => Path.no_slash s = true) (x :: xs) ->
  Path.split_from cur (String.concat "/" (x :: xs) +:+ String "/" rest)
  = (cur +:+ x) :: xs ++ Path.split_from "" rest.
Proof.
  induction xs as [|y ys IH]; intros x cur rest H.
  - apply Forall_cons in H as [Hx _]. simpl String.concat.
    now rewrite (split_from_no_slash x cur _ Hx).
  - apply Forall_cons in H as [Hx Hys].
    change (String.concat "/" (x :: y :: ys))
      with (x +:+ String "/" (String.concat "/" (y :: ys))).
    rewrite append_assoc, (split_from_no_slash x cur _ Hx).
    change (String "/" (String.concat "/" (y :: ys)) +:+ String "/" rest)
      with (String "/" (String.concat "/" (y :: ys) +:+ String "/" rest)).
    cbn [Path.split_from]. change (Ascii.eqb "/" "/") with true. cbn iota.
    now rewrite (IH y "" rest Hys).
Qed.

Lemma is_name_no_slash s : Path.is_name s = true -> Path.no_slash s = true.
Proof. unfold Path.is_name. intros H. now apply andb_true_iff in H as [_ H]. Qed.

Lemma walk_name st s : Path.is_name s = true -> Path.walk st s = s :: st.
Proof.
  unfold Path.is_name, Path.walk. intros H.
  apply andb_true_iff in H as [H _]. apply andb_true_iff in H as [H H3].
  apply andb_true_iff in H as [H1 H2].
  apply negb_true_iff in H1, H2, H3. now rewrite H1, H2, H3.
Qed.

Lemma fold_walk_names segs : forall st,
  Forall (fun s => Path.is_name s = true) segs ->
  fold_left Path.walk segs st = rev segs ++ st.
Proof.
  induction segs as [|s segs IH]; intros st H; [reflexivity|].
  apply Forall_cons in H as [Hs Hsegs]. simpl.
  rewrite (walk_name st s Hs), (IH _ Hsegs), <- app_assoc. reflexivity.
Qed.

(** From a module that lives in directory [bin] of [dir], whatever the
    working directory, the path the module computes leads to [README.md]
    in [dir]. *)
Lemma resolve_document dir bin cwd :
  Forall (fun s => Path.is_name s = true) (dir ++ [bin]) ->
  Path.resolve cwd (Path.render (dir ++ [bin]) +:+ "/../README.md")
  = Path.render (dir ++ ["README.md"]).
Proof.
  intros H. unfold Path.resolve.
  change (Path.render (dir ++ [bin]) +:+ "/../README.md")
    with (String "/" (String.concat "/" (dir ++ [bin])
                      +:+ String "/" "../README.md")).
  cbn [Path.is_absolute]. change (Ascii.eqb "/" "/") with true. cbn iota.
  f_equal. unfold Path.split. cbn [Path.split_from].
  change (Ascii.eqb "/" "/") with true. cbn iota.
  assert (Hsl : Forall (fun s => Path.no_slash s = true) (dir ++ [bin])).
  { eapply Forall_impl; [exact H|]. apply is_name_no_slash. }
  assert (Hsplit :
    Path.split_from "" (String.concat "/" (dir ++ [bin])
                        +:+ String "/" "../README.md")
    = (dir ++ [bin]) ++ [".."; "README.md"]).
  { destruct (dir ++ [bin]) as [|x xs] eqn:E.
    - now destruct dir.
    - now rewrite (split_from_join xs x "" _ Hsl). }
  rewrite Hsplit. unfold Path.normalize. cbn [fold_left].
  change (Path.walk [] "") with (@nil string).
  rewrite fold_left_app, (fold_walk_names _ [] H), app_nil_r, rev_unit.
  cbn [fold_left]. change (Path.walk (bin :: rev dir) "..") with (rev dir).
  change (Path.walk (rev dir) "README.md") with ("README.md" :: rev dir).
  cbn [rev]. now rewrite rev_involutive.
Qed.

Lemma absolute_append a b :
  Path.is_absolute a = true -> Path.is_absolute (a +:+ b) = true.
Proof. destruct a as [|c a]; [discriminate|]. now rewrite append_cons. Qed.

Lemma resolve_absolute cwd cwd' p :
  Path.is_absolute p = true -> Path.resolve cwd p = Path.resolve cwd' p.
Proof. unfold Path.resolve. now intros ->. Qed.

(** The module's directory being absolute, as Node makes it, is enough
    for runs from two working directories to be indistinguishable. *)
Lemma runs_ignore_cwd e m l cwd' fuel :
  Path.is_absolute (__dirname m) = true ->
  observable (run_importer (set_cwd cwd' e) m l fuel)
  = observable (run_importer e m l fuel).
Proof.
  intros Habs. apply run_importer_agree; try reflexivity.
  unfold fs_open. cbn [set_cwd e_cwd e_fs].
  rewrite (resolve_absolute cwd' (e_cwd e)); [reflexivity|].
  now apply absolute_append.
Qed.

(** The arguments are read nowhere. *)
Lemma runs_ignore_argv e m l argv argv' fuel :
  observable (run_importer (set_argv argv e) m l fuel)
  = observable (run_importer (set_argv argv' e) m l fuel).
Proof. now apply run_importer_agree. Qed.

Lemma names_Forall l :
  forallb Path.is_name l = true -> Forall (fun s => Path.is_name s = true) l.
Proof.
  intros H. apply Forall_forall. intros x Hx.
  apply (proj1 (forallb_forall _ _) H). now apply list_elem_of_In.
Qed.

(** C8. The path of the Document is the module's own directory followed
    by [/../README.md]. For a module in directory [bin] of [dir] it leads
    to [README.md] in [dir] from any working directory, and running the
    module, as the command or from an importer, from another working
    directory changes nothing that can be observed. *)
Theorem document_found_from_any_cwd e m dir bin cwd' l fuel :
  __dirname m = Path.render (dir ++ [bin]) ->
  forallb Path.is_name (dir ++ [bin]) = true ->
  map rs_path (p_streams (exec (cmd_js m) (boot e)))
  = [__dirname m +:+ "/../README.md"] /\
  Path.resolve (e_cwd e) (document_path m) = Path.render (dir ++ ["README.md"]) /\
  Path.resolve cwd' (document_path m) = Path.render (dir ++ ["README.md"]) /\
  observable (run_importer (set_cwd cwd' e) m l fuel)
  = observable (run_importer e m l fuel) /\
  observable (run_command (set_cwd cwd' e) m fuel)
  = observable (run_command e m fuel).
Proof.
  intros Hdir Hnames. apply names_Forall in Hnames.
  assert (Hres : forall cwd,
            Path.resolve cwd (document_path m)
            = Path.render (dir ++ ["README.md"])).
  { intros cwd. unfold document_path. rewrite Hdir.
    now apply resolve_document. }
  assert (Hopen : fs_open (set_cwd cwd' e) (document_path m)
                  = fs_open e (document_path m)).
  { unfold fs_open. cbn [set_cwd e_cwd e_fs]. now rewrite !Hres. }
  split; [|split; [apply Hres|split; [apply Hres|split]]].
  - destruct (importer_paths e m []) as (Hp & _).
    rewrite exec_importer in Hp. exact Hp.
  - now apply run_importer_agree.
  - rewrite !run_command_as_importer. now apply run_importer_agree.
Qed.

Lemma document_found_from_any_cwd_witness :
  map rs_path (p_streams (exec (cmd_js cmd_module)
                               (boot (installed "/app/index.js" 8))))
  = [__dirname cmd_module +:+ "/../README.md"] /\
  Path.resolve (e_cwd (installed "/app/index.js" 8)) (document_path cmd_module)
  = Path.render (["usr"; "lib"; "node_modules"; "module-best-practices"]
                 ++ ["README.md"]) /\
  Path.resolve "/tmp" (document_path cmd_module)
  = Path.render (["usr"; "lib"; "node_modules"; "module-best-practices"]
                 ++ ["README.md"]) /\
  observable (run_importer (set_cwd "/tmp" (installed "/app/index.js" 8))
                           cmd_module [PipeToSink] 9)
  = observable (run_importer (installed "/app/index.js" 8)
                             cmd_module [PipeToSink] 9) /\
  observable (run_command (set_cwd "/tmp" (installed "/app/index.js" 8))
                          cmd_module 9)
  = observable (run_command (installed "/app/index.js" 8) cmd_module 9).
Proof.
  apply (document_found_from_any_cwd (installed "/app/index.js" 8) cmd_module
           ["usr"; "lib"; "node_modules"; "module-best-practices"] "bin"
           "/tmp" [PipeToSink] 9).
  - reflexivity.
  - reflexivity.
Defined.

Lemma command_succeeds e m data fuel :
  is_entry_point e m = true ->
  document e m = Some (File data true) ->
  length data + 3 <= fuel ->
  received (run_command e m fuel) 0 = data /\
  p_exit (run_command e m fuel) = Some 0 /\
  p_stderr (run_command e m fuel) = [].
Proof.
  intros Hmain Hdoc Hfuel.
  pose proof (document_open e m data Hdoc) as Ho.
  pose proof (document_read e m data true Hdoc) as Hr.
  destruct (one_consumer_run e (document_path m) PagerStdin false _ Ho)
    as (cs & Hcat & _ & Hrun).
  rewrite Hr in Hcat, Hrun.
  unfold received, run_command, node. rewrite (boot_main e m Hmain).
  unfold doc_stream. rewrite (Hrun fuel Hfuel).
  cbn [p_writables p_exit p_stderr].
  repeat split. rewrite <- Hcat. apply w_bytes_log.
Qed.

(** C9. The command run without arguments on a sound installation
    sends the Document to the pager and exits with code 0; run with any
    arguments it does the same, prints nothing on the error channel, and
    two runs that differ in their arguments only cannot be told apart. *)
Theorem arguments_are_ignored e m data argv argv' fuel :
  is_entry_point e m = true ->
  document e m = Some (File data true) ->
  length data + 3 <= fuel ->
  received (run_command (set_argv [] e) m fuel) 0 = data /\
  p_exit (run_command (set_argv [] e) m fuel) = Some 0 /\
  p_exit (run_command (set_argv argv e) m fuel) = Some 0 /\
  p_stderr (run_command (set_argv argv e) m fuel) = [] /\
  observable (run_command (set_argv argv e) m fuel)
  = observable (run_command (set_argv argv' e) m fuel).
Proof.
  intros Hmain Hdoc Hfuel.
  destruct (command_succeeds (set_argv [] e) m data fuel Hmain Hdoc Hfuel)
    as (R0 & X0 & _).
  destruct (command_succeeds (set_argv argv e) m data fuel Hmain Hdoc Hfuel)
    as (_ & X1 & E1).
  repeat split; try assumption.
  rewrite !run_command_as_importer. apply runs_ignore_argv.
Qed.

Lemma arguments_are_ignored_witness :
  received (run_command (set_argv [] (installed (filename cmd_module) 5))
                        cmd_module 26) 0 = readme_head /\
  p_exit (run_command (set_argv [] (installed (filename cmd_module) 5))
                      cmd_module 26) = Some 0 /\
  p_exit (run_command (set_argv ["--help"; "x"]
                         (installed (filename cmd_module) 5))
                      cmd_module 26) = Some 0 /\
  p_stderr (run_command (set_argv ["--help"; "x"]
                           (installed (filename cmd_module) 5))
                        cmd_module 26) = [] /\
  observable (run_command (set_argv ["--help"; "x"]
                             (installed (filename cmd_module) 5))
                          cmd_module 26)
  = observable (run_command (set_argv ["-v"]
                               (installed (filename cmd_module) 5))
                            cmd_module 26).
Proof.
  apply (arguments_are_ignored (installed (filename cmd_module) 5) cmd_module
           readme_head ["--help"; "x"] ["-v"] 26).
  - reflexivity.
  - vm_compute. reflexivity.
  - vm_compute. lia.
Defined.

(** C10, as first stated, fails. Right after the load the open of the
    Document has been requested and not completed: the stream of a sound
    installation holds no descriptor yet. *)
Lemma open_not_completed_at_load :
  ~ (exists ino pos,
       map rs_status
           (p_streams (exec (cmd_js cmd_module)
                            (boot (installed "/app/index.js" 8))))
       = [Opened ino pos]).
Proof. intros (ino & pos & H). vm_compute in H. discriminate. Qed.

(** C10 (amended). Whatever the mode, loading the module creates the
    stream and requests the open of the Document, and the first turn of
    the loop after the load completes it: the descriptor is then held, at
    offset 0, although no consumer has done anything. The mode decides
    one thing only, whether a pager has been spawned and made the
    destination of the stream. *)
Theorem open_is_not_gated e m data :
  document e m = Some (File data true) ->
  p_streams (exec (cmd_js m) (boot e))
  = [{| rs_path := document_path m; rs_status := Opening;
        rs_dests := if is_entry_point e m then [0] else [];
        rs_onerror := false |}] /\
  p_writables (exec (cmd_js m) (boot e))
  = (if is_entry_point e m
     then [{| w_kind := PagerStdin; w_log := [] |}] else []) /\
  p_streams (run_command e m 1)
  = [{| rs_path := document_path m;
        rs_status := Opened (Path.resolve (e_cwd e) (document_path m)) 0;
        rs_dests := if is_entry_point e m then [0] else [];
        rs_onerror := false |}].
Proof.
  intros Hdoc. pose proof (document_open e m data Hdoc) as Ho.
  unfold run_command, node. destruct (is_entry_point e m) eqn:E.
  - rewrite (boot_main e m E). repeat split. cbn [loop].
    now rewrite (tick_open_ok e [] [] [] 0 _ [doc_stream m [0]] _
                   (doc_stream m [0]) eq_refl eq_refl eq_refl Ho).
  - rewrite (boot_library e m E). repeat split. cbn [loop].
    now rewrite (tick_open_ok e [] [] [] 0 _ [doc_stream m []] _
                   (doc_stream m []) eq_refl eq_refl eq_refl Ho).
Qed.

Lemma open_is_not_gated_witness :
  p_streams (exec (cmd_js cmd_module) (boot (installed "/app/index.js" 8)))
  = [{| rs_path := document_path cmd_module; rs_status := Opening;
        rs_dests := [];
        rs_onerror := false |}] /\
  p_writables (exec (cmd_js cmd_module) (boot (installed "/app/index.js" 8)))
  = [] /\
  p_streams (run_command (installed "/app/index.js" 8) cmd_module 1)
  = [{| rs_path := document_path cmd_module;
        rs_status :=
          Opened "/usr/lib/node_modules/module-best-practices/README.md" 0;
        rs_dests := [];
        rs_onerror := false |}].
Proof.
  apply (open_is_not_gated (installed "/app/index.js" 8) cmd_module readme_head).
  vm_compute. reflexivity.
Defined.

(** * Further properties of [bin/cmd.js] *)

(** ** The script, in closed form *)

Lemma acts_explicit e l : forall s ws ca out err ex,
  exec (acts 0 l)
    {| p_env := e; p_streams := [s]; p_writables := ws; p_caught := ca;
       p_stdout := out; p_stderr := err; p_exit := ex |}
  = {| p_env := e;
       p_streams :=
         [{| rs_path := rs_path s; rs_status := rs_status s;
             rs_dests := rs_dests s ++ seq (length ws) (n_pipes l);
             rs_onerror := rs_onerror s || has_on_error l |}];
       p_writables :=
         ws ++ repeat {| w_kind := Sink; w_log := [] |} (n_pipes l);
       p_caught := ca; p_stdout := out; p_stderr := err; p_exit := ex |}.
Proof.
  induction l as [|a l IH]; intros s ws ca out err ex.
  - unfold exec. simpl. rewrite !app_nil_r, orb_false_r. now destruct s.
  - simpl acts. rewrite exec_bind. destruct a.
    + change (exec (act 0 PipeToSink)
                {| p_env := e; p_streams := [s]; p_writables := ws;
                   p_caught := ca; p_stdout := out; p_stderr := err;
                   p_exit := ex |})
        with {| p_env := e; p_streams := [add_dest (length ws) s];
                p_writables := ws ++ [{| w_kind := Sink; w_log := [] |}];
                p_caught := ca; p_stdout := out; p_stderr := err;
                p_exit := ex |}.
      rewrite IH. cbn [add_dest rs_path rs_status rs_dests rs_onerror].
      rewrite length_app, Nat.add_1_r, <- !app_assoc. reflexivity.
    + change (exec (act 0 OnError)
                {| p_env := e; p_streams := [s]; p_writables := ws;
                   p_caught := ca; p_stdout := out; p_stderr := err;
                   p_exit := ex |})
        with {| p_env := e; p_streams := [listen_error s];
                p_writables := ws;
                p_caught := ca; p_stdout := out; p_stderr := err;
                p_exit := ex |}.
      rewrite IH. cbn [listen_error rs_path rs_status rs_dests rs_onerror].
      simpl has_on_error. now rewrite orb_true_r.
Qed.

Lemma fed_repeat k n evs :
  fed (repeat k n) evs = repeat {| w_kind := k; w_log := evs |} n.
Proof. unfold fed. apply map_repeat. Qed.

Lemma length_kinds_of e m l :
  length (kinds_of e m l)
  = (if is_entry_point e m then 1 else 0) + n_pipes l.
Proof.
  unfold kinds_of. rewrite length_app, repeat_length.
  now destruct (is_entry_point e m).
Qed.

(** What any script leaves behind for the loop. *)
Lemma boot_importer e m l :
  exec (importer m l) (boot e)
  = piping_state e (document_path m) (has_on_error l) (kinds_of e m l)
      Opening (seq 0 (length (kinds_of e m l))) [] None.
Proof.
  rewrite exec_importer, length_kinds_of. unfold kinds_of, piping_state.
  destruct (is_entry_point e m) eqn:E.
  - rewrite (boot_main e m E), (cmd_js_main m (boot e) E).
    cbn [fst boot p_streams length]. rewrite acts_explicit.
    unfold fed. cbn [map app]. fold (fed (repeat Sink (n_pipes l)) []).
    rewrite fed_repeat. reflexivity.
  - rewrite (boot_library e m E), (cmd_js_library m (boot e) E).
    cbn [fst boot p_streams length]. rewrite acts_explicit.
    cbn [app]. fold (fed (repeat Sink (n_pipes l)) []).
    rewrite fed_repeat. reflexivity.
Qed.

(** ** One stream feeding every writable of the process *)

Lemma fold_alter_all {A} (f : A -> A) (rest : list A) : forall pre,
  fold_left (fun ws d => alter f d ws)
            (seq (length pre) (length rest)) (pre ++ rest)
  = pre ++ map f rest.
Proof.
  induction rest as [|x rest IH]; intros pre; [reflexivity|].
  cbn [length seq fold_left map].
  rewrite (alter_app_r_alt f pre (x :: rest) (length pre)) by lia.
  rewrite Nat.sub_diag. cbn [alter list_alter].
  replace (S (length pre)) with (length (pre ++ [f x]))
    by (rewrite length_app; simpl; lia).
  change (pre ++ f x :: rest) with (pre ++ [f x] ++ rest).
  rewrite app_assoc, IH, <- app_assoc. reflexivity.
Qed.

Lemma write_all_fed ks ev evs :
  write_all (seq 0 (length ks)) ev (fed ks evs) = fed ks (evs ++ [ev]).
Proof.
  unfold write_all.
  pose proof (fold_alter_all (log_append [ev]) (fed ks evs) []) as H.
  unfold fed in *. rewrite length_map in H. cbn [length app] in H.
  rewrite H, map_map. reflexivity.
Qed.

Lemma bytes_of_chunks cs : concat (map wevent_bytes (map Data cs)) = concat cs.
Proof. induction cs as [|c cs IH]; simpl; [reflexivity|now rewrite IH]. Qed.

Lemma fed_lookup ks evs d :
  fed ks evs !! d
  = match ks !! d with
    | Some k => Some {| w_kind := k; w_log := evs |}
    | None => None
    end.
Proof.
  revert d. induction ks as [|k ks IH]; intros [|d]; simpl; auto.
Qed.

Lemma received_fed e path oe ks st ds evs ex d :
  received (piping_state e path oe ks st ds evs ex) d
  = if decide (d < length ks) then concat (map wevent_bytes evs) else [].
Proof.
  unfold received, piping_state. cbn [p_writables].
  rewrite fed_lookup. destruct (decide (d < length ks)) as [Hd|Hd].
  - destruct (lookup_lt_is_Some_2 ks d Hd) as [k ->]. reflexivity.
  - rewrite (lookup_ge_None_2 ks d) by lia. reflexivity.
Qed.

Section Piping.

Variables (e : Env) (path : string) (oe : bool) (ino : string)
          (ks : list wkind).
Hypothesis opens : fs_open e path = inr ino.

Local Abbreviation data := (fs_read e ino).
Local Abbreviation hwm := (Pos.to_nat (e_highWaterMark e)).
Local Abbreviation all := (seq 0 (length ks)).

Lemma tick_piping_opening ds evs :
  tick (piping_state e path oe ks Opening ds evs None)
  = piping_state e path oe ks (Opened ino 0) ds evs None.
Proof using opens.
  unfold piping_state.
  now rewrite (tick_open_ok e [] [] [] 0 ino
                 [{| rs_path := path; rs_status := Opening;
                     rs_dests := ds; rs_onerror := oe |}]
                 (fed ks evs)
                 {| rs_path := path; rs_status := Opening;
                    rs_dests := ds; rs_onerror := oe |}
                 eq_refl eq_refl eq_refl opens).
Qed.

Lemma tick_piping_flowing pos evs :
  ks <> [] ->
  tick (piping_state e path oe ks (Opened ino pos) all evs None)
  = match take hwm (drop pos data) with
    | [] => piping_state e path oe ks Ended [] (evs ++ [End]) None
    | c :: cs =>
        piping_state e path oe ks (Opened ino (pos + length (c :: cs))) all
          (evs ++ [Data (c :: cs)]) None
    end.
Proof.
  intros Hks. unfold piping_state, tick.
  cbn [p_exit p_streams find_ready].
  assert (Hr : ready {| rs_path := path; rs_status := Opened ino pos;
                        rs_dests := all; rs_onerror := oe |} = true).
  { unfold ready. cbn [rs_status rs_dests]. now destruct ks. }
  rewrite Hr. cbn [lookup list_lookup]. unfold step_stream.
  cbn [rs_status rs_dests p_env p_writables p_streams with_streams
       with_writables].
  destruct (take hwm (drop pos data)) as [|c cs];
    cbn [p_env p_writables p_streams p_caught p_stdout p_stderr p_exit];
    now rewrite write_all_fed.
Qed.

Lemma tick_piping_paused pos evs :
  tick (piping_state e path oe ks (Opened ino pos) [] evs None)
  = piping_state e path oe ks (Opened ino pos) [] evs (Some 0).
Proof. reflexivity. Qed.

Lemma tick_piping_ended evs :
  tick (piping_state e path oe ks Ended [] evs None)
  = piping_state e path oe ks Ended [] evs (Some 0).
Proof. reflexivity. Qed.

Lemma chunk_extends_prefix pos :
  take pos data ++ take hwm (drop pos data)
  = take (pos + length (take hwm (drop pos data))) data.
Proof.
  rewrite take_take_drop.
  destruct (le_lt_dec hwm (length (drop pos data))) as [Hle|Hlt].
  - now rewrite length_take_le.
  - rewrite length_drop in Hlt. rewrite (take_ge (drop pos data)) by
      (rewrite length_drop; lia).
    rewrite length_drop, !take_ge by lia. reflexivity.
Qed.

(** The invariant is kept by every turn of the loop. *)
Lemma piping_tick p :
  piping e path oe ino ks p -> piping e path oe ino ks (tick p).
Proof using opens.
  intros [|pos cs ex Hcat Hpos Hall Hex|cs ex Hcat Hall Hex].
  - rewrite tick_piping_opening.
    apply (piping_open e path oe ino ks 0 [] None);
      [reflexivity|lia|constructor|now left].
  - destruct Hex as [->|[Hks ->]].
    + assert (Hcase : ks = [] \/ ks <> [])
        by (destruct ks; [left|right]; congruence).
      destruct Hcase as [Hks|Hks].
      * assert (Hall0 : all = []) by now rewrite Hks.
        rewrite Hall0, tick_piping_paused, <- Hall0.
        apply (piping_open e path oe ino ks pos cs (Some 0)); auto.
      * rewrite tick_piping_flowing by exact Hks.
        destruct (take hwm (drop pos data)) as [|c cs0] eqn:Etake.
        -- apply take_pos_nil in Etake; [|apply highWaterMark_pos].
           apply (piping_ended e path oe ino ks cs None); [|exact Hall|now left].
           rewrite Hcat. apply take_ge.
           apply (f_equal length) in Etake. rewrite length_drop in Etake.
           simpl in Etake. lia.
        -- replace (map Data cs ++ [Data (c :: cs0)])
             with (map Data (cs ++ [c :: cs0])) by now rewrite map_app.
           apply (piping_open e path oe ino ks _ (cs ++ [c :: cs0]) None).
           ++ rewrite concat_app, Hcat. cbn [concat]. rewrite app_nil_r.
              rewrite <- Etake. apply chunk_extends_prefix.
           ++ rewrite <- Etake, length_take, length_drop. lia.
           ++ apply Forall_app. split; [exact Hall|]. constructor; [|constructor].
              split; [simpl; lia|]. rewrite <- Etake. apply firstn_le_length.
           ++ now left.
    + rewrite (tick_exited _ 0) by reflexivity.
      apply (piping_open e path oe ino ks pos cs (Some 0)); auto.
  - destruct Hex as [->| ->].
    + rewrite tick_piping_ended.
      apply (piping_ended e path oe ino ks cs (Some 0)); auto.
    + rewrite (tick_exited _ 0) by reflexivity.
      apply (piping_ended e path oe ino ks cs (Some 0)); auto.
Qed.

Lemma piping_loop fuel : forall p,
  piping e path oe ino ks p -> piping e path oe ino ks (loop fuel p).
Proof using opens.
  induction fuel as [|n IH]; intros p H; [exact H|].
  cbn [loop]. apply IH. now apply piping_tick.
Qed.

(** With a destination to feed, the stream reaches its end. *)
Lemma flowing_to_end k : forall pos evs,
  ks <> [] ->
  length data - pos <= k ->
  exists n cs,
    n <= S k /\
    concat cs = drop pos data /\
    loop n (piping_state e path oe ks (Opened ino pos) all evs None)
    = piping_state e path oe ks Ended [] (evs ++ map Data cs ++ [End]) None.
Proof.
  induction k as [|k IH]; intros pos evs Hks Hk.
  - exists 1, []. cbn [loop]. rewrite tick_piping_flowing by exact Hks.
    rewrite drop_ge by lia. rewrite take_nil. repeat split. lia.
  - pose proof (tick_piping_flowing pos evs Hks) as Ht.
    destruct (take hwm (drop pos data)) as [|c cs0] eqn:Etake.
    + exists 1, []. cbn [loop]. rewrite Ht.
      apply take_pos_nil in Etake; [|apply highWaterMark_pos].
      rewrite Etake. repeat split. lia.
    + assert (Hlen : 0 < length (c :: cs0) <= length data - pos).
      { split; [simpl; lia|]. rewrite <- Etake, length_take, length_drop. lia. }
      destruct (IH (pos + length (c :: cs0)) (evs ++ [Data (c :: cs0)]) Hks)
        as (n & cs & Hn & Hcat & Hrun); [lia|].
      exists (S n), ((c :: cs0) :: cs). repeat split.
      * lia.
      * change (concat ((c :: cs0) :: cs)) with ((c :: cs0) ++ concat cs).
        rewrite Hcat, <- Etake. apply take_then_rest.
      * cbn [loop]. rewrite Ht, Hrun. cbn [map]. now rewrite <- !app_assoc.
Qed.

(** From the open request to the exit, one destination or several. *)
Lemma piping_settles fuel :
  ks <> [] ->
  length data + 3 <= fuel ->
  exists cs,
    concat cs = data /\
    loop fuel (piping_state e path oe ks Opening all [] None)
    = piping_state e path oe ks Ended [] (map Data cs ++ [End]) (Some 0).
Proof using opens.
  intros Hks Hfuel.
  destruct (flowing_to_end (length data) 0 [] Hks) as (n & cs & Hn & Hcat & Hrun);
    [lia|].
  exists cs. split; [exact Hcat|].
  apply (loop_settled (1 + (n + 1)) _ _ 0); [|reflexivity|lia].
  rewrite loop_add. cbn [loop]. rewrite tick_piping_opening.
  rewrite loop_add, Hrun. reflexivity.
Qed.

(** Without destination the file is opened and left unread. *)
Lemma piping_unused fuel :
  ks = [] ->
  2 <= fuel ->
  loop fuel (piping_state e path oe ks Opening all [] None)
  = piping_state e path oe ks (Opened ino 0) [] [] (Some 0).
Proof using opens.
  intros Hks Hfuel.
  assert (Hall0 : all = []) by now rewrite Hks.
  apply (loop_settled 2 _ _ 0); [|reflexivity|exact Hfuel].
  cbn [loop]. now rewrite Hall0, tick_piping_opening.
Qed.

End Piping.

(** ** Runs over a readable Document, at every moment *)

Lemma bytes_of_log_end cs :
  concat (map wevent_bytes (map Data cs ++ [End])) = concat cs.
Proof.
  rewrite map_app, concat_app, bytes_of_chunks. simpl. apply app_nil_r.
Qed.

Lemma run_importer_piping e m l data fuel :
  document e m = Some (File data true) ->
  piping e (document_path m) (has_on_error l)
    (Path.resolve (e_cwd e) (document_path m)) (kinds_of e m l)
    (run_importer e m l fuel).
Proof.
  intros Hdoc. unfold run_importer, node. rewrite boot_importer.
  apply piping_loop; [exact (document_open e m data Hdoc)|constructor].
Qed.

(** X1. At every moment of a run over a readable Document, what the
    pager of the command has been sent, and what each destination that an
    importer piped the handle into on requiring the module (before the
    loop first turns) has been sent, is an initial segment of the
    Document: never a byte out of place, also before the run is over. *)
Theorem consumers_see_prefix e m data l fuel d :
  document e m = Some (File data true) ->
  (exists k, received (run_importer e m l fuel) d = take k data) /\
  (exists k, received (run_command e m fuel) d = take k data).
Proof.
  intros Hdoc.
  pose proof (document_read e m data true Hdoc) as Hr.
  assert (H : forall l',
            exists k, received (run_importer e m l' fuel) d = take k data).
  { intros l'. pose proof (run_importer_piping e m l' data fuel Hdoc) as Hp.
    remember (run_importer e m l' fuel) as p eqn:Ep. clear Ep.
    destruct Hp as [|pos cs ex Hcat _ _ _|cs ex Hcat _ _];
      rewrite received_fed; try rewrite Hr in Hcat.
    - exists 0. now destruct (decide _).
    - destruct (decide _); [|now exists 0].
      exists pos. now rewrite bytes_of_chunks.
    - destruct (decide _); [|now exists 0].
      exists (length data). rewrite bytes_of_log_end, Hcat.
      symmetry. apply firstn_all. }
  split; [apply H|]. rewrite run_command_as_importer. apply H.
Qed.

Lemma consumers_see_prefix_witness :
  (exists k,
     received (run_importer (installed (filename cmd_module) 5) cmd_module
                            [PipeToSink] 4) 0
     = take k readme_head) /\
  (exists k,
     received (run_command (installed (filename cmd_module) 5) cmd_module 4) 0
     = take k readme_head).
Proof.
  apply (consumers_see_prefix (installed (filename cmd_module) 5) cmd_module
           readme_head [PipeToSink] 4 0).
  vm_compute. reflexivity.
Defined.

Lemma bounded_chunks e cs :
  Forall (fun c => 0 < length c <= Pos.to_nat (e_highWaterMark e)) cs ->
  forallb (bounded_event e) (map Data cs) = true.
Proof.
  induction 1 as [|c cs [Hlo Hhi] _ IH]; [reflexivity|].
  cbn [map forallb bounded_event]. rewrite IH.
  rewrite (proj2 (Nat.ltb_lt _ _) Hlo), (proj2 (Nat.leb_le _ _) Hhi).
  reflexivity.
Qed.

Lemma Forall_fed (P : Writable -> Prop) ks evs :
  (forall k, P {| w_kind := k; w_log := evs |}) -> Forall P (fed ks evs).
Proof.
  intros H. unfold fed. induction ks as [|k ks IH]; constructor; auto.
Qed.

(** X2. Every write a pager or sink is ever asked to do carries at
    least one byte and at most [highWaterMark] bytes: the Document is
    streamed, never handed over whole when it is larger than one read,
    and no empty write is made. *)
Theorem writes_are_bounded e m data l fuel :
  document e m = Some (File data true) ->
  Forall (fun w => forallb (bounded_event e) (w_log w) = true)
         (p_writables (run_importer e m l fuel)).
Proof.
  intros Hdoc. pose proof (run_importer_piping e m l data fuel Hdoc) as Hp.
  remember (run_importer e m l fuel) as p eqn:Ep. clear Ep.
  destruct Hp as [|pos cs ex _ _ Hall _|cs ex _ Hall _];
    unfold piping_state; cbn [p_writables]; apply Forall_fed; intros k;
    cbn [w_log].
  - reflexivity.
  - now apply bounded_chunks.
  - rewrite forallb_app, (bounded_chunks e cs Hall). reflexivity.
Qed.

Lemma writes_are_bounded_witness :
  Forall (fun w =>
            forallb (bounded_event (installed (filename cmd_module) 5))
                    (w_log w) = true)
         (p_writables (run_importer (installed (filename cmd_module) 5)
                                    cmd_module [] 12)).
Proof.
  apply (writes_are_bounded (installed (filename cmd_module) 5) cmd_module
           readme_head [] 12).
  vm_compute. reflexivity.
Defined.

(** ** The command, whatever the state of the installation *)

(** The command on a Document that does not open. *)
Lemma command_open_failure e m er fuel :
  is_entry_point e m = true ->
  fs_open e (document_path m) = inl er ->
  1 <= fuel ->
  run_command e m fuel
  = {| p_env := e;
       p_streams := [set_status (Errored er) (doc_stream m [0])];
       p_writables := [{| w_kind := PagerStdin; w_log := [] |}];
       p_caught := []; p_stdout := [];
       p_stderr := uncaught_report (e_runtime e) er (document_path m);
       p_exit := Some uncaught_exception_exit_code |}.
Proof.
  intros Hmain Ho Hfuel. unfold run_command, node.
  rewrite (boot_main e m Hmain).
  pose proof (tick_single_open_fail e (doc_stream m [0])
                [{| w_kind := PagerStdin; w_log := [] |}] [] [] [] er
                eq_refl Ho) as Ht.
  exact (loop_settled 1 _ _ uncaught_exception_exit_code fuel Ht eq_refl Hfuel).
Qed.

(** X4. A Document that exists but may not be read fails the command
    like a missing one, with [EACCES]: exit code 1; on the error channel
    Node's report of the uncaught exception, whose fifth line reads
    [Error: EACCES: permission denied, open '...'] with the path the
    module asked for; nothing on standard output, the pager having been
    spawned and sent nothing. *)
Theorem unreadable_document_cli e m data fuel :
  is_entry_point e m = true ->
  document e m = Some (File data false) ->
  1 <= fuel ->
  fs_open e (document_path m) = inl EACCES /\
  p_streams (run_command e m fuel)
  = [{| rs_path := document_path m; rs_status := Errored EACCES;
        rs_dests := [0]; rs_onerror := false |}] /\
  p_exit (run_command e m fuel) = Some 1 /\
  p_stderr (run_command e m fuel)
  = [rt_throw_site (e_runtime e);
     "      throw er; // Unhandled 'error' event";
     "      ^";
     "";
     "Error: EACCES: permission denied, open '" +:+ document_path m +:+ "'";
     "Emitted 'error' event on ReadStream instance at:"]
    ++ rt_emit_frames (e_runtime e)
    ++ ["  errno: -13,";
        "  code: 'EACCES',";
        "  syscall: 'open',";
        "  path: '" +:+ document_path m +:+ "'";
        "}";
        "";
        rt_version (e_runtime e)] /\
  standard_output (run_command e m fuel) = [] /\
  p_writables (run_command e m fuel)
  = [{| w_kind := PagerStdin; w_log := [] |}].
Proof.
  intros Hmain Hdoc Hfuel. pose proof (document_denied e m data Hdoc) as Ho.
  split; [exact Ho|].
  rewrite (command_open_failure e m EACCES fuel Hmain Ho Hfuel).
  repeat split.
Qed.

Lemma unreadable_document_cli_witness :
  fs_open (locked (filename cmd_module)) (document_path cmd_module)
  = inl EACCES /\
  p_streams (run_command (locked (filename cmd_module)) cmd_module 3)
  = [{| rs_path := document_path cmd_module; rs_status := Errored EACCES;
        rs_dests := [0]; rs_onerror := false |}] /\
  p_exit (run_command (locked (filename cmd_module)) cmd_module 3) = Some 1 /\
  p_stderr (run_command (locked (filename cmd_module)) cmd_module 3)
  = [rt_throw_site (e_runtime (locked (filename cmd_module)));
     "      throw er; // Unhandled 'error' event";
     "      ^";
     "";
     "Error: EACCES: permission denied, open '"
       +:+ document_path cmd_module +:+ "'";
     "Emitted 'error' event on ReadStream instance at:"]
    ++ rt_emit_frames (e_runtime (locked (filename cmd_module)))
    ++ ["  errno: -13,";
        "  code: 'EACCES',";
        "  syscall: 'open',";
        "  path: '" +:+ document_path cmd_module +:+ "'";
        "}";
        "";
        rt_version (e_runtime (locked (filename cmd_module)))] /\
  standard_output (run_command (locked (filename cmd_module)) cmd_module 3)
  = [] /\
  p_writables (run_command (locked (filename cmd_module)) cmd_module 3)
  = [{| w_kind := PagerStdin; w_log := [] |}].
Proof.
  apply (unreadable_document_cli (locked (filename cmd_module)) cmd_module
           readme_head 3).
  - reflexivity.
  - vm_compute. reflexivity.
  - lia.
Defined.

(** ** Importers with several destinations, or none *)

Lemma kinds_of_library e m l :
  is_entry_point e m = false -> kinds_of e m l = repeat Sink (n_pipes l).
Proof. intros H. unfold kinds_of. now rewrite H. Qed.

(** X6. However many destinations an importer pipes the handle into
    on requiring the module, before the loop first turns, each of them is
    sent the whole Document, all of them in the same chunks followed by
    the end signal, and the process then exits with code 0. *)
Theorem every_sink_gets_document e m data l fuel d :
  is_entry_point e m = false ->
  document e m = Some (File data true) ->
  length data + 3 <= fuel ->
  d < n_pipes l ->
  received (run_importer e m l fuel) d = data /\
  (exists chunks,
     concat chunks = data /\
     p_writables (run_importer e m l fuel)
     = repeat {| w_kind := Sink; w_log := map Data chunks ++ [End] |}
              (n_pipes l)) /\
  p_exit (run_importer e m l fuel) = Some 0.
Proof.
  intros Hlib Hdoc Hfuel Hd.
  pose proof (document_open e m data Hdoc) as Ho.
  pose proof (document_read e m data true Hdoc) as Hr.
  unfold run_importer, node.
  rewrite boot_importer, (kinds_of_library e m l Hlib).
  assert (Hks : repeat Sink (n_pipes l) <> []).
  { destruct (n_pipes l); [lia|discriminate]. }
  rewrite <- Hr in Hfuel.
  destruct (piping_settles e (document_path m) (has_on_error l) _
              (repeat Sink (n_pipes l)) Ho fuel Hks Hfuel)
    as (cs & Hcat & Hrun).
  rewrite Hr in Hcat. rewrite Hrun. split; [|split].
  - rewrite received_fed, repeat_length.
    destruct (decide (d < n_pipes l)); [|lia].
    now rewrite bytes_of_log_end.
  - exists cs. split; [exact Hcat|].
    unfold piping_state. cbn [p_writables]. apply fed_repeat.
  - reflexivity.
Qed.

Lemma every_sink_gets_document_witness :
  received (run_importer (installed "/app/index.js" 9) cmd_module
                         [PipeToSink; OnError; PipeToSink] 26) 1
  = readme_head /\
  (exists chunks,
     concat chunks = readme_head /\
     p_writables (run_importer (installed "/app/index.js" 9) cmd_module
                               [PipeToSink; OnError; PipeToSink] 26)
     = repeat {| w_kind := Sink; w_log := map Data chunks ++ [End] |}
              (n_pipes [PipeToSink; OnError; PipeToSink])) /\
  p_exit (run_importer (installed "/app/index.js" 9) cmd_module
                       [PipeToSink; OnError; PipeToSink] 26) = Some 0.
Proof.
  apply (every_sink_gets_document (installed "/app/index.js" 9) cmd_module
           readme_head [PipeToSink; OnError; PipeToSink] 26 1).
  - reflexivity.
  - vm_compute. reflexivity.
  - vm_compute. lia.
  - vm_compute. lia.
Defined.

(** X7. An importer that pipes the handle nowhere leaves the Document
    opened and unread: the descriptor is held at offset 0, no writable
    exists, nothing is caught or printed, and the process exits with
    code 0. *)
Theorem unused_handle_reads_nothing e m data l fuel :
  is_entry_point e m = false ->
  document e m = Some (File data true) ->
  n_pipes l = 0 ->
  2 <= fuel ->
  p_streams (run_importer e m l fuel)
  = [{| rs_path := document_path m;
        rs_status := Opened (Path.resolve (e_cwd e) (document_path m)) 0;
        rs_dests := []; rs_onerror := has_on_error l |}] /\
  p_writables (run_importer e m l fuel) = [] /\
  p_caught (run_importer e m l fuel) = [] /\
  p_stderr (run_importer e m l fuel) = [] /\
  p_exit (run_importer e m l fuel) = Some 0.
Proof.
  intros Hlib Hdoc Hn Hfuel.
  pose proof (document_open e m data Hdoc) as Ho.
  unfold run_importer, node.
  rewrite boot_importer, (kinds_of_library e m l Hlib), Hn.
  rewrite (piping_unused e (document_path m) (has_on_error l) _
             (repeat Sink 0) Ho fuel eq_refl Hfuel).
  repeat split.
Qed.

Lemma unused_handle_reads_nothing_witness :
  p_streams (run_importer (installed "/app/index.js" 9) cmd_module [OnError] 5)
  = [{| rs_path := document_path cmd_module;
        rs_status :=
          Opened (Path.resolve (e_cwd (installed "/app/index.js" 9))
                               (document_path cmd_module)) 0;
        rs_dests := []; rs_onerror := has_on_error [OnError] |}] /\
  p_writables (run_importer (installed "/app/index.js" 9) cmd_module
                            [OnError] 5) = [] /\
  p_caught (run_importer (installed "/app/index.js" 9) cmd_module
                         [OnError] 5) = [] /\
  p_stderr (run_importer (installed "/app/index.js" 9) cmd_module
                         [OnError] 5) = [] /\
  p_exit (run_importer (installed "/app/index.js" 9) cmd_module [OnError] 5)
  = Some 0.
Proof.
  apply (unused_handle_reads_nothing (installed "/app/index.js" 9) cmd_module
           readme_head [OnError] 5).
  - reflexivity.
  - vm_compute. reflexivity.
  - reflexivity.
  - lia.
Defined.

(** X8. When the Document does not open and the script has put no
    'error' listener on the handle, the process is killed whatever
    destinations the script has piped the handle into on loading the
    module, also when it has piped it nowhere: the exit code is 1, the
    error channel carries Node's report of the uncaught exception with
    the message of the error as its fifth line, nothing is caught, and no
    writable has been sent anything. *)
Theorem silent_script_dies_on_open_failure e m l er fuel :
  fs_open e (document_path m) = inl er ->
  has_on_error l = false ->
  1 <= fuel ->
  map rs_status (p_streams (run_importer e m l fuel)) = [Errored er] /\
  p_exit (run_importer e m l fuel) = Some 1 /\
  nth_error (p_stderr (run_importer e m l fuel)) 4
  = Some ("Error: "
          +:+ match er with
              | ENOENT => "ENOENT: no such file or directory"
              | EACCES => "EACCES: permission denied"
              end
          +:+ ", open '" +:+ document_path m +:+ "'") /\
  length (p_stderr (run_importer e m l fuel))
  = 13 + length (rt_emit_frames (e_runtime e)) /\
  p_caught (run_importer e m l fuel) = [] /\
  Forall (fun w => w_log w = []) (p_writables (run_importer e m l fuel)).
Proof.
  intros Ho Hl Hfuel. unfold run_importer, node.
  rewrite boot_importer, Hl. unfold piping_state.
  set (ks := kinds_of e m l).
  pose proof (tick_single_open_fail e
                {| rs_path := document_path m; rs_status := Opening;
                   rs_dests := seq 0 (length ks); rs_onerror := false |}
                (fed ks []) [] [] [] er eq_refl Ho) as Ht.
  rewrite (loop_settled 1 _ _ 1 fuel Ht eq_refl Hfuel).
  cbn [emit_error rs_onerror rs_path p_streams p_exit p_stderr p_caught
       p_writables p_env app].
  split; [reflexivity|]. split; [reflexivity|]. split; [reflexivity|].
  split; [|split; [reflexivity|now apply Forall_fed]].
  unfold uncaught_report. rewrite !length_app. simpl. lia.
Qed.

Lemma silent_script_dies_on_open_failure_witness :
  map rs_status
      (p_streams (run_importer (locked "/app/index.js") cmd_module [] 2))
  = [Errored EACCES] /\
  p_exit (run_importer (locked "/app/index.js") cmd_module [] 2) = Some 1 /\
  nth_error (p_stderr (run_importer (locked "/app/index.js") cmd_module [] 2))
            4
  = Some ("Error: " +:+ "EACCES: permission denied"
          +:+ ", open '" +:+ document_path cmd_module +:+ "'") /\
  length (p_stderr (run_importer (locked "/app/index.js") cmd_module [] 2))
  = 13 + length (rt_emit_frames (e_runtime (locked "/app/index.js"))) /\
  p_caught (run_importer (locked "/app/index.js") cmd_module [] 2) = [] /\
  Forall (fun w => w_log w = [])
         (p_writables (run_importer (locked "/app/index.js") cmd_module [] 2)).
Proof.
  apply (silent_script_dies_on_open_failure (locked "/app/index.js")
           cmd_module [] EACCES 2).
  - vm_compute. reflexivity.
  - reflexivity.
  - lia.
Defined.

(** ** Documents that fit in one read *)

(** X9. A Document no longer than [highWaterMark] reaches the pager in
    a single write holding all of it, followed by the end signal; an empty
    Document as the end signal alone. *)
Theorem small_document_single_write e m data fuel :
  is_entry_point e m = true ->
  document e m = Some (File data true) ->
  length data <= Pos.to_nat (e_highWaterMark e) ->
  4 <= fuel ->
  p_writables (run_command e m fuel)
  = [{| w_kind := PagerStdin;
        w_log := match data with
                 | [] => [End]
                 | _ :: _ => [Data data; End]
                 end |}] /\
  p_exit (run_command e m fuel) = Some 0.
Proof.
  intros Hmain Hdoc Hsmall Hfuel.
  pose proof (document_open e m data Hdoc) as Ho.
  pose proof (document_read e m data true Hdoc) as Hr.
  rewrite run_command_as_importer. unfold run_importer, node.
  rewrite boot_importer.
  assert (Hks : kinds_of e m [] = [PagerStdin])
    by (unfold kinds_of; now rewrite Hmain).
  rewrite Hks. cbn [has_on_error existsb].
  set (path := document_path m) in *.
  set (ino := Path.resolve (e_cwd e) path) in *.
  assert (Hne : [PagerStdin] <> []) by discriminate.
  assert (Hrun :
    loop 4 (piping_state e path false [PagerStdin] Opening
              (seq 0 (length [PagerStdin])) [] None)
    = piping_state e path false [PagerStdin] Ended []
        (match data with [] => [End] | _ :: _ => [Data data; End] end)
        (Some 0)).
  { cbn [loop].
    rewrite (tick_piping_opening e path false ino [PagerStdin] Ho).
    rewrite (tick_piping_flowing e path false ino [PagerStdin] 0 [] Hne).
    rewrite Hr. change (drop 0 data) with data.
    rewrite take_ge by exact Hsmall.
    destruct data as [|b data']; [reflexivity|].
    cbn iota. set (dd := b :: data') in *. cbn [Nat.add].
    rewrite (tick_piping_flowing e path false ino [PagerStdin] _ _ Hne).
    rewrite Hr, drop_all, take_nil. reflexivity. }
  rewrite (loop_settled 4 _ _ 0 fuel Hrun eq_refl Hfuel).
  split; reflexivity.
Qed.

Lemma small_document_single_write_witness :
  p_writables (run_command (installed (filename cmd_module) 64)
                           cmd_module 4)
  = [{| w_kind := PagerStdin;
        w_log := match readme_head with
                 | [] => [End]
                 | _ :: _ => [Data readme_head; End]
                 end |}] /\
  p_exit (run_command (installed (filename cmd_module) 64) cmd_module 4)
  = Some 0.
Proof.
  apply (small_document_single_write
           (installed (filename cmd_module) 64) cmd_module readme_head 4).
  - reflexivity.
  - vm_compute. reflexivity.
  - vm_compute. lia.
  - lia.
Defined.



